(** * GitHub-Actions-to-Argo workflow converter: a shallow embedding

    The development follows [workflow-merger/gha-conerter/main.go]:
    the name sanitizer [sanitizeName], the image mapper
    [mapRunsOnToImage], the translator [convertGHAtoArgo] and the
    queue-backed request handlers ([handleConvert], and the synchronous
    [handleConversion] of the second server).

    Go strings are byte strings: they are modelled by [string], whose
    characters are the 256 values of [ascii]; [len] is [String.length]
    and slicing is by byte. *)

From Stdlib Require Import Ascii NArith.
From stdpp Require Import base list strings gmap pretty.

(** ** Bytes and byte strings *)

Definition bytes (s : string) : list ascii := String.list_ascii_of_string s.
Definition str (l : list ascii) : string := String.string_of_list_ascii l.

Definition inRange (lo hi c : ascii) : bool :=
  ((N_of_ascii lo <=? N_of_ascii c) && (N_of_ascii c <=? N_of_ascii hi))%N.

(** [c >= utf8.RuneSelf] is false: the byte is a one-byte rune. *)
Definition isASCIIByte (c : ascii) : bool := (N_of_ascii c <? 128)%N.

Definition isUpperByte (c : ascii) : bool := inRange "A" "Z" c.

(** [c += 'a' - 'A'] on the upper-case letters. *)
Definition lowerByte (c : ascii) : ascii :=
  if isUpperByte c then ascii_of_N (N_of_ascii c + 32) else c.

(** The character class [a-z0-9-] of [nonDNSSafeRegex] (which matches
    its complement). *)
Definition dnsSafe (c : ascii) : bool :=
  inRange "a" "z" c || inRange "0" "9" c || Ascii.eqb c "-".

Definition isAlnum (c : ascii) : bool :=
  inRange "a" "z" c || inRange "0" "9" c.

Definition isDash (c : ascii) : bool := Ascii.eqb c "-".

(** ** The source and target documents *)

Module model.
(** [github.com/nektos/act/pkg/model]: the fields and accessors the
    converter reads.  [Step_With] is [None] for a nil map; its
    entries are listed by increasing key, the order in which [fmt]
    prints a map.  [Job_Needs] and [Job_RunsOn] are what the methods
    [Needs()] and [RunsOn()] return.  [Workflow_Jobs] is the map
    [Jobs], whose keys are distinct, listed in the order in which the
    [range] statement of one run visits it. *)
Record Step := {
  Step_Name : string;
  Step_Run : string;
  Step_Uses : string;
  Step_With : option (list (string * string))
}.
Record Job := {
  Job_Steps : list Step;
  Job_Needs : list string;
  Job_RunsOn : list string
}.
Record Workflow := {
  Workflow_Name : string;
  Workflow_Jobs : list (string * Job)
}.
End model.
Import model.

Module wfv1.
(** [argo-workflows/v3/pkg/apis/workflow/v1alpha1] and
    [corev1.Container]: the fields the converter sets.  A slice or
    pointer field that the converter may leave nil is an [option]
    where nil and empty differ in what follows. *)
Record Container := {
  Container_Image : string;
  Container_Command : list string
}.
Record ScriptTemplate := {
  ScriptTemplate_Container : Container;
  ScriptTemplate_Source : string
}.
Record WorkflowStep := {
  WorkflowStep_Name : string;
  WorkflowStep_Template : string
}.
Definition ParallelSteps := list WorkflowStep.
Record DAGTask := {
  DAGTask_Name : string;
  DAGTask_Template : string;
  DAGTask_Dependencies : list string
}.
Record DAGTemplate := { DAGTemplate_Tasks : list DAGTask }.
Record Template := {
  Template_Name : string;
  Template_Steps : option (list ParallelSteps);
  Template_Script : option ScriptTemplate;
  Template_DAG : option DAGTemplate
}.
Record WorkflowSpec := {
  WorkflowSpec_Templates : list Template;
  WorkflowSpec_Entrypoint : string;
  WorkflowSpec_Parallelism : option Z
}.
Record Workflow := {
  APIVersion : string;
  Kind : string;
  GenerateName : string;
  Spec : WorkflowSpec
}.
End wfv1.
Import wfv1.

(** ** External collaborators

    What the converter calls outside the repository and cannot be
    computed here: Go's Unicode tables, the GitHub-Actions parser of
    [nektos/act] and the YAML encoder. *)

Class External := {
  (** [strings.Map(unicode.ToLower, s)], the path of [strings.ToLower]
      for a string that holds a byte of 128 or more. *)
  MapToLower : list ascii -> list ascii;
  (** [model.ReadWorkflow(reader, false)]: an error message or the
      parsed workflow. *)
  ReadWorkflow : string -> string + model.Workflow;
  (** [yaml.Marshal]: an error message or the encoded document. *)
  Marshal : wfv1.Workflow -> string + string
}.

(** ** The name sanitizer *)

Section Sanitizer.
Context `{External}.

(** [strings.ToLower]: the ASCII-only path returns the string itself
    when it has no upper-case letter and lowers [A-Z] otherwise. *)
Definition ToLower (s : list ascii) : list ascii :=
  if forallb isASCIIByte s then
    if negb (existsb isUpperByte s) then s else map lowerByte s
  else MapToLower s.

(** [nonDNSSafeRegex.ReplaceAllString(name, "-")] for the pattern
    [[^a-z0-9-]+]: every maximal run of bytes outside the class becomes
    one dash.  [inRun] tells that the previous byte was part of the
    current match.  A rune of several bytes has only bytes of 128 and
    more, none of which is in the class, so runs of runes and runs of
    bytes coincide. *)
Fixpoint replaceNonDNSSafe (inRun : bool) (s : list ascii) : list ascii :=
  match s with
  | [] => []
  | c :: r =>
      if dnsSafe c then c :: replaceNonDNSSafe false r
      else if inRun then replaceNonDNSSafe true r
      else "-"%char :: replaceNonDNSSafe true r
  end.

Fixpoint trimLeftDash (s : list ascii) : list ascii :=
  match s with
  | [] => []
  | c :: r => if isDash c then trimLeftDash r else s
  end.

(** [edgeDashRegex.ReplaceAllString(name, "")] for the pattern
    [^-+|-+$]: the dashes at the start and those at the end go. *)
Definition trimEdgeDash (s : list ascii) : list ascii :=
  rev (trimLeftDash (rev (trimLeftDash s))).

Definition sanitizeBytes (name : list ascii) : list ascii :=
  match name with
  | [] => bytes "unnamed"
  | _ =>
      let name := ToLower name in
      let name := replaceNonDNSSafe false name in
      let name := trimEdgeDash name in
      if 63 <? length name then take 63 name else name
  end.

Definition sanitizeName (name : string) : string :=
  str (sanitizeBytes (bytes name)).

(** The name as it stands before the truncation. *)
Definition trimmed (name : list ascii) : list ascii :=
  trimEdgeDash (replaceNonDNSSafe false (ToLower name)).

End Sanitizer.

(** ** The image mapper *)

(** [strings.Contains(s, substr)]. *)
Fixpoint Contains (s substr : string) : bool :=
  String.prefix substr s ||
  match s with
  | EmptyString => false
  | String _ r => Contains r substr
  end.

Definition mapRunsOnToImage (runsOn : string) : string :=
  if Contains runsOn "ubuntu-22.04" || Contains runsOn "ubuntu-latest" then
    "ubuntu:22.04"
  else if Contains runsOn "ubuntu-20.04" then "ubuntu:20.04"
  else "alpine:latest".

(** ** The translator *)

Definition nl : string := String "010" "".
Definition dquote : string := String "034" "".

(** [strings.Join]. *)
Fixpoint Join (elems : list string) (sep : string) : string :=
  match elems with
  | [] => ""
  | [e] => e
  | e :: rest => e +:+ sep +:+ Join rest sep
  end.

(** [%v] of a [map[string]string]: [map[k1:v1 k2:v2]], keys increasing. *)
Definition fmtMap (m : list (string * string)) : string :=
  "map[" +:+ Join (map (λ kv, kv.1 +:+ ":" +:+ kv.2) m) " " +:+ "]".

Definition stars : string :=
  "****************************************************************".

(** The placeholder script of a [uses] step. *)
Definition placeholderSource (uses withParams : string) : string :=
  nl +:+ "echo " +:+ dquote +:+ stars +:+ dquote +:+ nl +:+
  "echo " +:+ dquote +:+ "TODO: Manually implement GHA Action: " +:+ uses
    +:+ dquote +:+ nl +:+
  "echo " +:+ dquote +:+ withParams +:+ dquote +:+ nl +:+
  "echo " +:+ dquote +:+ stars +:+ dquote +:+ nl +:+
  "exit 1" +:+ nl.

Section Translator.
Context `{External}.

(** The name of the step at index [i]: the sanitized name, or
    [step-<i>] when that is empty. *)
Definition stepNameAt (i : nat) (ghaStep : Step) : string :=
  let stepName := sanitizeName (Step_Name ghaStep) in
  if decide (stepName = "") then "step-" +:+ pretty i else stepName.

Definition baseImageOf (runsOn : list string) : string :=
  match runsOn with
  | r :: _ => mapRunsOnToImage r
  | [] => "alpine:latest"
  end.

(** The [Script] field built for a step, [None] on the [continue] of
    a step with neither [run] nor [uses]. *)
Definition stepScript (baseImage : string) (ghaStep : Step)
    : option ScriptTemplate :=
  if decide (Step_Run ghaStep ≠ "") then
    Some {| ScriptTemplate_Container :=
              {| Container_Image := baseImage;
                 Container_Command := ["bash"; "-c"] |};
            ScriptTemplate_Source := Step_Run ghaStep |}
  else if decide (Step_Uses ghaStep ≠ "") then
    let withParams :=
      match Step_With ghaStep with
      | Some w => "Parameters (with): " +:+ fmtMap w
      | None => ""
      end in
    Some {| ScriptTemplate_Container :=
              {| Container_Image := "alpine:latest";
                 Container_Command := ["sh"; "-c"] |};
            ScriptTemplate_Source :=
              placeholderSource (Step_Uses ghaStep) withParams |}
  else None.

(** The loop over [ghaJob.Steps], from index [i] on, with the two
    slices it appends to. *)
Fixpoint convertSteps (jobTemplateName : string) (runsOn : list string)
    (i : nat) (steps : list Step)
    (jobSteps : list ParallelSteps) (stepTemplates : list Template)
    : list ParallelSteps * list Template :=
  match steps with
  | [] => (jobSteps, stepTemplates)
  | ghaStep :: rest =>
      let stepName := stepNameAt i ghaStep in
      let stepTemplateName := jobTemplateName +:+ "-" +:+ stepName in
      let jobSteps :=
        jobSteps ++ [[{| WorkflowStep_Name := stepName;
                         WorkflowStep_Template := stepTemplateName |}]] in
      let baseImage := baseImageOf runsOn in
      match stepScript baseImage ghaStep with
      | Some script =>
          let stepTemplate :=
            {| Template_Name := stepTemplateName;
               Template_Steps := None;
               Template_Script := Some script;
               Template_DAG := None |} in
          convertSteps jobTemplateName runsOn (S i) rest jobSteps
            (stepTemplates ++ [stepTemplate])
      | None =>
          convertSteps jobTemplateName runsOn (S i) rest jobSteps
            stepTemplates
      end
  end.

(** The variables the loop over [ghaWF.Jobs] updates. *)
Record JobsState := {
  jobNames : list string;
  jobTemplates : gmap string Template;
  jobDependencies : gmap string (list string);
  Templates : list Template
}.

Definition initJobs : JobsState :=
  {| jobNames := []; jobTemplates := ∅; jobDependencies := ∅;
     Templates := [] |}.

(** One iteration of the loop over [ghaWF.Jobs]. *)
Definition convertJob (st : JobsState) (jobName : string) (ghaJob : Job)
    : JobsState :=
  let jobTemplateName := sanitizeName jobName in
  let needs := Job_Needs ghaJob in
  let '(jobSteps, stepTemplates) :=
    convertSteps jobTemplateName (Job_RunsOn ghaJob) 0 (Job_Steps ghaJob)
      [] [] in
  let jobTemplate :=
    {| Template_Name := jobTemplateName;
       Template_Steps := Some jobSteps;
       Template_Script := None;
       Template_DAG := None |} in
  {| jobNames := jobNames st ++ [jobTemplateName];
     jobTemplates := <[jobTemplateName := jobTemplate]> (jobTemplates st);
     jobDependencies := <[jobTemplateName := needs]> (jobDependencies st);
     Templates := (Templates st ++ [jobTemplate]) ++ stepTemplates |}.

(** The loop over [ghaWF.Jobs], from the state [st] on. *)
Definition foldJobs (st : JobsState) (jobs : list (string * Job)) : JobsState :=
  fold_left (λ st kv, convertJob st kv.1 kv.2) jobs st.

Definition convertJobs (jobs : list (string * Job)) : JobsState :=
  foldJobs initJobs jobs.

(** One iteration of the loop that fills the DAG. *)
Definition dagTaskOf (deps : gmap string (list string)) (jobTplName : string)
    : DAGTask :=
  {| DAGTask_Name := jobTplName;
     DAGTask_Template := jobTplName;
     DAGTask_Dependencies :=
       match deps !! jobTplName with
       | Some d => if decide (0 < length d) then d else []
       | None => []
       end |}.

(** [convertGHAtoArgo] after the parse: steps 2 to 4. *)
Definition convertWorkflow (ghaWF : model.Workflow) : wfv1.Workflow :=
  let st := convertJobs (Workflow_Jobs ghaWF) in
  let spec :=
    match jobNames st with
    | [only] =>
        {| WorkflowSpec_Templates := Templates st;
           WorkflowSpec_Entrypoint := only;
           WorkflowSpec_Parallelism := Some 50%Z |}
    | names =>
        let dagTemplate :=
          {| Template_Name := "main-dag";
             Template_Steps := None;
             Template_Script := None;
             Template_DAG :=
               Some {| DAGTemplate_Tasks :=
                         map (dagTaskOf (jobDependencies st)) names |} |} in
        {| WorkflowSpec_Templates := Templates st ++ [dagTemplate];
           WorkflowSpec_Entrypoint := Template_Name dagTemplate;
           WorkflowSpec_Parallelism := Some 50%Z |}
    end in
  {| APIVersion := "argoproj.io/v1alpha1";
     Kind := "Workflow";
     GenerateName := sanitizeName (Workflow_Name ghaWF) +:+ "-";
     Spec := spec |}.

Definition convertGHAtoArgo (ghaYAML : string) : string + wfv1.Workflow :=
  match ReadWorkflow ghaYAML with
  | inl err => inl ("failed to parse GHA YAML using 'act': " +:+ err)
  | inr ghaWF => inr (convertWorkflow ghaWF)
  end.

End Translator.

(** ** The worker pool and the HTTP handlers of [main.go] *)

Definition NumWorkers : nat := 5.
Definition MaxQueue : nat := 100.

Record ConversionJob := {
  JobID : string;
  GhaYAML : string
}.

Record ConversionResult := {
  Result_JobID : string;
  ArgoYAML : string;
  Error : option string
}.

(** The process state: the buffer of the channel [JobQueue] (oldest
    first, at most [MaxQueue] long), the [sync.Map] behind
    [ResultStore], and for each worker that has received a job and not
    yet stored its result, that job. *)
Record Server := {
  JobQueue : list ConversionJob;
  ResultStore : gmap string ConversionResult;
  Running : gmap nat ConversionJob
}.

Record Request := {
  Method : string;
  (** [io.ReadAll(r.Body)]: [None] when it fails. *)
  Body : option string;
  (** [r.URL.Path] *)
  Path : string
}.

Inductive Response :=
  | MethodNotAllowed (msg : string)
  | InternalServerError (msg : string)
  | BadRequest (msg : string)
  | Accepted (jobID resultURL : string)
  | ServiceUnavailable (msg : string)
  | NotFound
  | OK (yaml : string).

Definition StatusCode (r : Response) : nat :=
  match r with
  | MethodNotAllowed _ => 405
  | InternalServerError _ => 500
  | BadRequest _ => 400
  | Accepted _ _ => 202
  | ServiceUnavailable _ => 503
  | NotFound => 404
  | OK _ => 200
  end.

(** [strings.TrimPrefix]. *)
Definition TrimPrefix (s prefix : string) : string :=
  if String.prefix prefix s then
    String.substring (String.length prefix)
      (String.length s - String.length prefix) s
  else s.

Section Pool.
Context `{External}.

(** The body of the worker loop between the receive and the store. *)
Definition processJob (job : ConversionJob) : ConversionResult :=
  match convertGHAtoArgo (GhaYAML job) with
  | inl err =>
      {| Result_JobID := JobID job; ArgoYAML := ""; Error := Some err |}
  | inr argoWF =>
      match Marshal argoWF with
      | inl marshalErr =>
          {| Result_JobID := JobID job; ArgoYAML := "";
             Error := Some ("failed to marshal Argo YAML: " +:+ marshalErr) |}
      | inr yamlBytes =>
          {| Result_JobID := JobID job; ArgoYAML := yamlBytes;
             Error := None |}
      end
  end.

(** [handleConvert], with the identifier [uuid.New().String()] returns.
    The [select] with a [default] case sends when the buffer has room
    and takes the default at once when it has none. *)
Definition handleConvert (r : Request) (uuid : string) (s : Server)
    : Response * Server :=
  if decide (Method r ≠ "POST") then
    (MethodNotAllowed "Only POST method is allowed", s)
  else
    match Body r with
    | None => (InternalServerError "Failed to read request body", s)
    | Some body =>
        if decide (String.length body = 0) then
          (BadRequest "Request body is empty", s)
        else
          let jobID := uuid in
          let job := {| JobID := jobID; GhaYAML := body |} in
          if decide (length (JobQueue s) < MaxQueue) then
            (Accepted jobID ("/result/" +:+ jobID),
             {| JobQueue := JobQueue s ++ [job];
                ResultStore := ResultStore s;
                Running := Running s |})
          else
            (ServiceUnavailable "Server busy, queue is full", s)
    end.

(** [handleGetResult]; it reads the store and changes nothing. *)
Definition handleGetResult (r : Request) (s : Server) : Response :=
  if decide (Method r ≠ "GET") then
    MethodNotAllowed "Only GET method is allowed"
  else
    let jobID := TrimPrefix (Path r) "/result/" in
    if decide (jobID = "") then BadRequest "Job ID is missing"
    else
      match ResultStore s !! jobID with
      | None => NotFound
      | Some res =>
          match Error res with
          | Some err =>
              InternalServerError ("Failed to process job: " +:+ err)
          | None => OK (ArgoYAML res)
          end
      end.

(** What can happen to the process: a request to [/convert] (with the
    identifier drawn for it), a request to [/result/], an idle worker
    receiving the oldest job of the queue, and a worker storing the
    result of the job it holds. *)
Inductive Event :=
  | Convert (r : Request) (uuid : string)
  | GetResult (r : Request)
  | Receive (workerID : nat)
  | Store (workerID : nat).

Definition step (s : Server) (e : Event) : Server :=
  match e with
  | Convert r uuid => (handleConvert r uuid s).2
  | GetResult _ => s
  | Receive w =>
      match Running s !! w, JobQueue s with
      | None, job :: rest =>
          if decide (1 ≤ w ≤ NumWorkers) then
            {| JobQueue := rest;
               ResultStore := ResultStore s;
               Running := <[w := job]> (Running s) |}
          else s
      | _, _ => s
      end
  | Store w =>
      match Running s !! w with
      | Some job =>
          {| JobQueue := JobQueue s;
             ResultStore := <[JobID job := processJob job]> (ResultStore s);
             Running := delete w (Running s) |}
      | None => s
      end
  end.

Definition run (s : Server) (events : list Event) : Server :=
  fold_left step events s.

(** The identifier is that of no job in the queue, with a worker or in
    the store. *)
Definition unusedID (id : string) (s : Server) : Prop :=
  (id ∉ map JobID (JobQueue s)) ∧
  (∀ w job, Running s !! w = Some job → JobID job ≠ id) ∧
  ResultStore s !! id = None.

(** The request [GET /result/<jobID>]. *)
Definition pollRequest (jobID : string) : Request :=
  {| Method := "GET"; Body := Some ""; Path := "/result/" +:+ jobID |}.

(** No later request draws the identifier again. *)
Definition neverDrawn (id : string) (events : list Event) : Prop :=
  ∀ r uuid, Convert r uuid ∈ events → uuid ≠ id.

End Pool.

(** ** The synchronous server

    The second server hands each job a channel of its own and its
    handler waits on it; the queue and the [select] are the same. *)

Module Sync.

Definition MaxWorkers : nat := 5.
Definition MaxQueue : nat := 100.

(** [ResultChan] names the unbuffered channel made for the request. *)
Record ConversionJob := {
  Payload : string;
  ResultChan : nat
}.

(** Where the handler stands once the [select] is over: it has
    answered, or it is blocked on [<-resultChan]. *)
Inductive Outcome :=
  | Respond (r : Response)
  | AwaitResult (resultChan : nat).

Definition handleConversion (r : Request) (resultChan : nat)
    (queue : list ConversionJob) : Outcome * list ConversionJob :=
  if decide (Method r ≠ "POST") then
    (Respond (MethodNotAllowed "只允许 POST 方法"), queue)
  else
    match Body r with
    | None => (Respond (BadRequest "读取请求体失败"), queue)
    | Some body =>
        if decide (String.length body = 0) then
          (Respond (BadRequest "请求体为空"), queue)
        else
          let job := {| Payload := body; ResultChan := resultChan |} in
          if decide (length queue < MaxQueue) then
            (AwaitResult resultChan, queue ++ [job])
          else
            (Respond (ServiceUnavailable "服务繁忙，任务队列已满"), queue)
    end.

End Sync.

(** ** What the loops of the translator compute

    Closed forms of the two loops, proved equal to them below. *)

Section ClosedForms.
Context `{External}.

(** The reference the job template holds for the step at index [i]. *)
Definition stepRef (jobTemplateName : string) (i : nat) (ghaStep : Step)
    : WorkflowStep :=
  {| WorkflowStep_Name := stepNameAt i ghaStep;
     WorkflowStep_Template := jobTemplateName +:+ "-" +:+ stepNameAt i ghaStep |}.

(** The template of the step at index [i], if the step is not skipped. *)
Definition stepTemplateAt (jobTemplateName : string) (runsOn : list string)
    (i : nat) (ghaStep : Step) : option Template :=
  match stepScript (baseImageOf runsOn) ghaStep with
  | Some script =>
      Some {| Template_Name := jobTemplateName +:+ "-" +:+ stepNameAt i ghaStep;
              Template_Steps := None;
              Template_Script := Some script;
              Template_DAG := None |}
  | None => None
  end.

Definition stepRefsOf (jobTemplateName : string) (steps : list Step)
    : list ParallelSteps :=
  imap (λ i ghaStep, [stepRef jobTemplateName i ghaStep]) steps.

Definition jobTemplateOf (jobName : string) (ghaJob : Job) : Template :=
  {| Template_Name := sanitizeName jobName;
     Template_Steps :=
       Some (stepRefsOf (sanitizeName jobName) (Job_Steps ghaJob));
     Template_Script := None;
     Template_DAG := None |}.

Definition stepTemplatesOf (jobName : string) (ghaJob : Job) : list Template :=
  omap id (imap (stepTemplateAt (sanitizeName jobName) (Job_RunsOn ghaJob))
             (Job_Steps ghaJob)).

(** The templates one iteration of the loop over the jobs appends. *)
Definition templatesOfJob (kv : string * Job) : list Template :=
  jobTemplateOf kv.1 kv.2 :: stepTemplatesOf kv.1 kv.2.

Definition templateNameOf (kv : string * Job) : string := sanitizeName kv.1.

(** The synthetic DAG template. *)
Definition mainDAG (tasks : list DAGTask) : Template :=
  {| Template_Name := "main-dag";
     Template_Steps := None;
     Template_Script := None;
     Template_DAG := Some {| DAGTemplate_Tasks := tasks |} |}.

(** The tasks of the DAG of a workflow with these jobs. *)
Definition dagTasksOf (jobs : list (string * Job)) : list DAGTask :=
  map (dagTaskOf (jobDependencies (convertJobs jobs)))
    (map templateNameOf jobs).

(** The task of a job whose template name no other job has. *)
Definition taskOfJob (kv : string * Job) : DAGTask :=
  {| DAGTask_Name := templateNameOf kv;
     DAGTask_Template := templateNameOf kv;
     DAGTask_Dependencies := Job_Needs kv.2 |}.

(** The [withParams] text of the placeholder script. *)
Definition withParamsOf (ghaStep : Step) : string :=
  match Step_With ghaStep with
  | Some w => "Parameters (with): " +:+ fmtMap w
  | None => ""
  end.

End ClosedForms.

(** ** Vocabulary of the statements *)

(** A string matches [^[a-z0-9-]{0,63}$]. *)
Definition isLabel (s : string) : bool :=
  forallb dnsSafe (bytes s) && (String.length s <=? 63).

Definition endsWithDash (s : string) : bool :=
  match rev (bytes s) with
  | c :: _ => isDash c
  | [] => false
  end.

(** A step with neither [run] nor [uses]. *)
Definition isSkipped (ghaStep : Step) : bool :=
  bool_decide (Step_Run ghaStep = "") && bool_decide (Step_Uses ghaStep = "").

Definition isRunStep (ghaStep : Step) : bool :=
  bool_decide (Step_Run ghaStep ≠ "").

(** A [uses] step: an action reference and no [run] text. *)
Definition isUsesStep (ghaStep : Step) : bool :=
  bool_decide (Step_Run ghaStep = "") && bool_decide (Step_Uses ghaStep ≠ "").

Definition isDAGTemplate (t : Template) : bool :=
  bool_decide (is_Some (Template_DAG t)).
Definition isScriptTemplate (t : Template) : bool :=
  bool_decide (is_Some (Template_Script t)).
Definition isStepsTemplate (t : Template) : bool :=
  bool_decide (is_Some (Template_Steps t)).

(** Two templates that differ at most in the order of the tasks of
    their DAG. *)
Definition sameTemplate (t1 t2 : Template) : Prop :=
  Template_Name t1 = Template_Name t2 ∧
  Template_Steps t1 = Template_Steps t2 ∧
  Template_Script t1 = Template_Script t2 ∧
  match Template_DAG t1, Template_DAG t2 with
  | Some d1, Some d2 => DAGTemplate_Tasks d1 ≡ₚ DAGTemplate_Tasks d2
  | None, None => True
  | _, _ => False
  end.

(** Two documents that are identical up to the order of their
    templates (and of the tasks inside the DAG). *)
Definition sameDocument (d1 d2 : wfv1.Workflow) : Prop :=
  APIVersion d1 = APIVersion d2 ∧
  Kind d1 = Kind d2 ∧
  GenerateName d1 = GenerateName d2 ∧
  WorkflowSpec_Entrypoint (Spec d1) = WorkflowSpec_Entrypoint (Spec d2) ∧
  WorkflowSpec_Parallelism (Spec d1) = WorkflowSpec_Parallelism (Spec d2) ∧
  ∃ ts, WorkflowSpec_Templates (Spec d1) ≡ₚ ts ∧
        Forall2 sameTemplate ts (WorkflowSpec_Templates (Spec d2)).

(** The ASCII-only instance used to run the model on examples: its
    parser knows no document and its encoder prints the entrypoint. *)
Definition asciiExternal : External :=
  {| MapToLower := λ s, s;
     ReadWorkflow := λ _, inl "no parser";
     Marshal := λ wf, inr (WorkflowSpec_Entrypoint (Spec wf)) |}.

(** ** Sample names *)

(** 62 times [a], a dash and [b]: 64 bytes. *)
Definition longName : string :=
  "aaaaaaaaaaaaaaaaaaaaaaaaaaaaaaaaaaaaaaaaaaaaaaaaaaaaaaaaaaaaaa-b".

(** ** Sample workflows *)

Definition checkoutStep : Step :=
  {| Step_Name := ""; Step_Run := ""; Step_Uses := "actions/checkout@v3";
     Step_With := Some [("fetch-depth", "0")] |}.
Definition emptyStep : Step :=
  {| Step_Name := "Nothing"; Step_Run := ""; Step_Uses := "";
     Step_With := None |}.
Definition testStep : Step :=
  {| Step_Name := "Run tests"; Step_Run := "go test ./..."; Step_Uses := "";
     Step_With := None |}.
Definition testJob : Job :=
  {| Job_Steps := [checkoutStep; emptyStep; testStep];
     Job_Needs := []; Job_RunsOn := ["ubuntu-latest"] |}.
Definition ciWorkflow : model.Workflow :=
  {| Workflow_Name := "CI"; Workflow_Jobs := [("test", testJob)] |}.

(** Jobs [A] and [B] with [B.needs = [A]]. *)
Definition jobA : Job :=
  {| Job_Steps := []; Job_Needs := []; Job_RunsOn := [] |}.
Definition jobB : Job :=
  {| Job_Steps := []; Job_Needs := ["A"]; Job_RunsOn := [] |}.
Definition needsWorkflow : model.Workflow :=
  {| Workflow_Name := "AB"; Workflow_Jobs := [("A", jobA); ("B", jobB)] |}.

(** Jobs [a] and [A] with [A.needs = [a]]: their template names are
    both [a].  The two lists are the two orders in which a run may
    visit them. *)
Definition jobNeedsLower : Job :=
  {| Job_Steps := []; Job_Needs := ["a"]; Job_RunsOn := [] |}.
Definition clashJobs : list (string * Job) :=
  [("a", jobA); ("A", jobNeedsLower)].
Definition clashJobs' : list (string * Job) :=
  [("A", jobNeedsLower); ("a", jobA)].

(** ** A sample server state *)

(** A server whose queue is full and whose workers are all idle. *)
Definition fullServer : Server :=
  {| JobQueue := replicate MaxQueue {| JobID := "queued"; GhaYAML := "jobs: {}" |};
     ResultStore := ∅;
     Running := ∅ |}.

Definition postRequest : Request :=
  {| Method := "POST"; Body := Some "jobs: {}"; Path := "/convert" |}.

(** ** Vocabulary of the pool *)

Section PoolVocabulary.
Context `{External}.

Definition queueBounded (s : Server) : Prop :=
  length (JobQueue s) ≤ MaxQueue.

Definition workersInRange (s : Server) : Prop :=
  ∀ w, is_Some (Running s !! w) → 1 ≤ w ≤ NumWorkers.

(** The job waits in the queue or a worker holds it. *)
Definition pendingJob (job : ConversionJob) (s : Server) : Prop :=
  job ∈ JobQueue s ∨ ∃ w, Running s !! w = Some job.

(** No two unfinished jobs share an identifier and none of them has a
    stored result. *)
Definition distinctIDs (s : Server) : Prop :=
  NoDup (map JobID (JobQueue s)) ∧
  (∀ w job, Running s !! w = Some job →
     JobID job ∉ map JobID (JobQueue s)) ∧
  (∀ w w' job job', Running s !! w = Some job → Running s !! w' = Some job' →
     JobID job = JobID job' → w = w') ∧
  (∀ job, pendingJob job s → ResultStore s !! JobID job = None).

(** Every identifier is new at the time [uuid.New()] draws it. *)
Fixpoint freshRun (s : Server) (events : list Event) : Prop :=
  match events with
  | [] => True
  | e :: rest =>
      match e with
      | Convert _ uuid => unusedID uuid s
      | _ => True
      end ∧ freshRun (step s e) rest
  end.

(** The jobs of the requests answered 202, in the order of the
    requests. *)
Fixpoint acceptedJobs (s : Server) (events : list Event)
    : list ConversionJob :=
  match events with
  | [] => []
  | e :: rest =>
      match e with
      | Convert r uuid =>
          match (handleConvert r uuid s).1, Body r with
          | Accepted jobID _, Some body =>
              [{| JobID := jobID; GhaYAML := body |}]
          | _, _ => []
          end
      | _ => []
      end ++ acceptedJobs (step s e) rest
  end.

(** What [handleGetResult] answers for a stored result. *)
Definition resultResponse (res : ConversionResult) : Response :=
  match Error res with
  | Some err => InternalServerError ("Failed to process job: " +:+ err)
  | None => OK (ArgoYAML res)
  end.

End PoolVocabulary.

(** ** The synchronous pool

    The worker loop and the second half of [handleConversion] of the
    synchronous server, over the [Sync.handleConversion] above. *)

Module SyncPool.
Import Sync.

(** [yaml.Unmarshal] into a [model.Workflow] and [json.Marshal] of the
    name with the job ids, which are outside the repository. *)
Class Codec := {
  Unmarshal : string -> string + model.Workflow;
  MarshalJSON : string * list string -> string + string
}.

Record ConversionResult := {
  Data : string;
  Error : option string
}.

(** A server state: the buffer of [JobQueue], the job each busy worker
    holds, and the answer given so far to each request; a request is
    named by the number of the result channel it makes. *)
Record Pool := {
  Queue : list ConversionJob;
  Busy : gmap nat ConversionJob;
  Answers : gmap nat Response
}.

(** A request, an idle worker receiving the oldest job, and a worker
    handing its result to the handler that waits on the channel of the
    job. *)
Inductive Event :=
  | Submit (r : Request) (resultChan : nat)
  | Receive (workerID : nat)
  | Deliver (workerID : nat).

Section Workers.
Context `{Codec}.

(** [convertWorkflow]: the name and the job ids, in the order of the
    [range] over the map, encoded as JSON. *)
Definition convertWorkflow (yamlData : string) : ConversionResult :=
  match Unmarshal yamlData with
  | inl err => {| Data := ""; Error := Some ("解析 YAML 失败: " +:+ err) |}
  | inr workflow =>
      let jobIDs := map fst (Workflow_Jobs workflow) in
      match MarshalJSON (Workflow_Name workflow, jobIDs) with
      | inl err => {| Data := ""; Error := Some ("序列化 JSON 失败: " +:+ err) |}
      | inr jsonData => {| Data := jsonData; Error := None |}
      end
  end.

(** Steps 6 and 7 of [handleConversion]: the answer to a result. *)
Definition respond (result : ConversionResult) : Response :=
  match Error result with
  | Some err => InternalServerError ("转换失败: " +:+ err)
  | None => OK (Data result)
  end.

Definition step (p : Pool) (e : Event) : Pool :=
  match e with
  | Submit r resultChan =>
      match handleConversion r resultChan (Queue p) with
      | (Respond resp, queue) =>
          {| Queue := queue; Busy := Busy p;
             Answers := <[resultChan := resp]> (Answers p) |}
      | (AwaitResult _, queue) =>
          {| Queue := queue; Busy := Busy p; Answers := Answers p |}
      end
  | Receive w =>
      match Busy p !! w, Queue p with
      | None, job :: rest =>
          if decide (1 ≤ w ≤ MaxWorkers) then
            {| Queue := rest; Busy := <[w := job]> (Busy p);
               Answers := Answers p |}
          else p
      | _, _ => p
      end
  | Deliver w =>
      match Busy p !! w with
      | Some job =>
          {| Queue := Queue p; Busy := delete w (Busy p);
             Answers :=
               <[ResultChan job := respond (convertWorkflow (Payload job))]>
                 (Answers p) |}
      | None => p
      end
  end.

Definition run (p : Pool) (events : list Event) : Pool :=
  fold_left step events p.

End Workers.
End SyncPool.

(** ** The ConfigMap reader of [configmap/configmap.go] *)

Module configmap.

(** [corev1.ConfigMap]: the field the reader looks at. *)
Record ConfigMap := { ConfigMap_Data : gmap string string }.

Section Client.
(** [clientset.CoreV1().ConfigMaps(namespace).Get(ctx, name, opts)]: the
    answer of the cluster, an error message or the ConfigMap. *)
Variable clientset : string → string → string + ConfigMap.

Definition GetConfigMap (namespace configMapName : string)
    : string + ConfigMap :=
  match clientset namespace configMapName with
  | inl err =>
      inl ("failed to get ConfigMap " +:+ configMapName +:+ " in namespace "
           +:+ namespace +:+ ": " +:+ err)
  | inr configMap => inr configMap
  end.

Definition GetConfigMapValue (namespace configMapName key : string)
    : string + string :=
  match GetConfigMap namespace configMapName with
  | inl err => inl err
  | inr configMap =>
      match ConfigMap_Data configMap !! key with
      | None =>
          inl ("key " +:+ key +:+ " not found in ConfigMap " +:+ configMapName)
      | Some value => inr value
      end
  end.

End Client.
End configmap.

(** ** More vocabulary *)

(** The ASCII letters of the name in lower case. *)
Definition asciiLower (x : string) : string := str (map lowerByte (bytes x)).

Definition isASCII (x : string) : bool := forallb isASCIIByte (bytes x).

Definition startsWithDash (s : string) : bool :=
  match bytes s with
  | c :: _ => isDash c
  | [] => false
  end.

(** A DNS-1123 label written in [a-z0-9-]: not empty, at most 63 bytes,
    no dash at either end. *)
Definition isDNSLabel (s : string) : bool :=
  isLabel s && negb (bool_decide (s = "")) &&
  negb (startsWithDash s) && negb (endsWithDash s).

(** The steps of a job that are not skipped. *)
Definition runnable (steps : list Step) : list Step :=
  List.filter (λ ghaStep, negb (isSkipped ghaStep)) steps.

(** ** More samples *)

Definition idleServer : Server :=
  {| JobQueue := []; ResultStore := ∅; Running := ∅ |}.

Definition queuedJob : ConversionJob :=
  {| JobID := "queued"; GhaYAML := "jobs: {}" |}.

(** A server with one job in the queue. *)
Definition busyServer : Server :=
  {| JobQueue := [queuedJob]; ResultStore := ∅; Running := ∅ |}.

Definition storedResult : ConversionResult :=
  {| Result_JobID := "done"; ArgoYAML := "kind: Workflow"; Error := None |}.

(** A server that has finished one job. *)
Definition storedServer : Server :=
  {| JobQueue := []; ResultStore := {[ "done" := storedResult ]};
     Running := ∅ |}.

Definition sampleCodec : SyncPool.Codec :=
  {| SyncPool.Unmarshal := λ _, inl "no parser";
     SyncPool.MarshalJSON := λ nj, inr nj.1 |}.

Definition idlePool : SyncPool.Pool :=
  {| SyncPool.Queue := []; SyncPool.Busy := ∅; SyncPool.Answers := ∅ |}.

Definition sampleConfigMap : configmap.ConfigMap :=
  {| configmap.ConfigMap_Data := {[ "artifact-repository" := "s3" ]} |}.

(** A cluster that has the one ConfigMap [argo/workflow-artifact-repository]. *)
Definition sampleCluster (namespace name : string)
    : string + configmap.ConfigMap :=
  if decide (namespace = "argo" ∧ name = "workflow-artifact-repository")
  then inr sampleConfigMap else inl "not found".

(** ** The shell that runs a script

    A model of the shell on the part of its language that the
    placeholder script is written in: commands ended by a newline or a
    semicolon, words of letters and digits, words in double quotes, and
    the commands [echo] and [exit].  A script with anything else (a
    dollar sign, a backquote, a backslash or a NUL byte inside quotes,
    any other byte outside them, a quote left open, an empty command
    before a semicolon, another command, an option of [echo]) has no
    value here. *)











(** ** A step whose action reference holds a double quote *)


(** * Properties *)

(** ** Bytes *)

Lemma dnsSafe_plain (c : ascii) :
  dnsSafe c = true → isASCIIByte c = true ∧ isUpperByte c = false.
Proof.
  destruct c as [[] [] [] [] [] [] [] []]; vm_compute; intuition congruence.
Qed.

Lemma isDash_safe (c : ascii) : isDash c = true → dnsSafe c = true.
Proof.
  unfold isDash, dnsSafe. intros ->. by rewrite orb_true_r.
Qed.

Lemma dnsSafe_cases (c : ascii) :
  dnsSafe c = isAlnum c || isDash c.
Proof. reflexivity. Qed.

Lemma bytes_str (l : list ascii) : bytes (str l) = l.
Proof. apply String.list_ascii_of_string_of_list_ascii. Qed.

Lemma str_bytes (s : string) : str (bytes s) = s.
Proof. apply String.string_of_list_ascii_of_string. Qed.

Lemma length_bytes (s : string) : length (bytes s) = String.length s.
Proof. induction s; simpl; congruence. Qed.

Lemma bytes_nil (s : string) : bytes s = [] ↔ s = "".
Proof. destruct s; simpl; split; congruence. Qed.

Lemma str_inj (l1 l2 : list ascii) : str l1 = str l2 → l1 = l2.
Proof. intros E. by rewrite <- (bytes_str l1), E, bytes_str. Qed.

(** ** The steps of the sanitizer *)

Section SanitizerFacts.
Context `{External}.

Lemma ToLower_safe (s : list ascii) :
  forallb dnsSafe s = true → ToLower s = s.
Proof.
  intros Hs. unfold ToLower.
  assert (forallb isASCIIByte s = true ∧ existsb isUpperByte s = false)
    as [-> ->]; [|done].
  induction s as [|c s IH]; [done|]. simpl in *.
  apply andb_true_iff in Hs as [Hc Hs].
  destruct (dnsSafe_plain c Hc) as [-> ->]. by apply IH.
Qed.

Lemma replace_safe (b : bool) (s : list ascii) :
  forallb dnsSafe s = true → replaceNonDNSSafe b s = s.
Proof.
  revert b. induction s as [|c s IH]; intros b Hs; [done|]. simpl in *.
  apply andb_true_iff in Hs as [-> Hs]. by rewrite IH.
Qed.

Lemma replace_is_safe (b : bool) (s : list ascii) :
  forallb dnsSafe (replaceNonDNSSafe b s) = true.
Proof.
  revert b. induction s as [|c s IH]; intros b; [done|]. simpl.
  destruct (dnsSafe c) eqn:Hc; simpl.
  - by rewrite Hc, IH.
  - destruct b; simpl; by rewrite ?IH.
Qed.

Lemma forallb_rev {A} (f : A → bool) (l : list A) :
  forallb f (rev l) = forallb f l.
Proof.
  induction l as [|x l IH]; [done|]. simpl.
  rewrite forallb_app, IH. simpl. by rewrite andb_true_r, andb_comm.
Qed.

Lemma trimLeftDash_safe (s : list ascii) :
  forallb dnsSafe s = true → forallb dnsSafe (trimLeftDash s) = true.
Proof.
  induction s as [|c s IH]; [done|]. simpl. intros Hs.
  destruct (isDash c); [|done].
  apply andb_true_iff in Hs as [_ Hs]. by apply IH.
Qed.

Lemma trimEdgeDash_safe (s : list ascii) :
  forallb dnsSafe s = true → forallb dnsSafe (trimEdgeDash s) = true.
Proof.
  intros Hs. unfold trimEdgeDash. rewrite forallb_rev.
  apply trimLeftDash_safe. rewrite forallb_rev. by apply trimLeftDash_safe.
Qed.

Lemma forallb_take {A} (f : A → bool) (n : nat) (l : list A) :
  forallb f l = true → forallb f (take n l) = true.
Proof.
  revert n. induction l as [|x l IH]; intros [|n]; simpl; try done.
  intros [-> Hl]%andb_true_iff. by apply IH.
Qed.

(** A string that does not start with a dash is left alone. *)
Lemma trimLeftDash_id (c : ascii) (s : list ascii) :
  isDash c = false → trimLeftDash (c :: s) = c :: s.
Proof. simpl. by intros ->. Qed.

Lemma trimLeftDash_head (s : list ascii) :
  match trimLeftDash s with
  | c :: _ => isDash c = false
  | [] => True
  end.
Proof.
  induction s as [|c s IH]; [done|]. simpl.
  destruct (isDash c) eqn:Hc; [done|]. done.
Qed.

Lemma trimLeftDash_snoc (s : list ascii) (c : ascii) :
  isDash c = false → trimLeftDash (s ++ [c]) = trimLeftDash s ++ [c].
Proof.
  intros Hc. induction s as [|d s IH]; simpl; [by rewrite Hc|].
  by destruct (isDash d).
Qed.

(** After the trim the string is empty or starts with a byte that is
    not a dash. *)
Lemma trimEdgeDash_head (s : list ascii) :
  match trimEdgeDash s with
  | c :: _ => isDash c = false
  | [] => True
  end.
Proof.
  unfold trimEdgeDash.
  pose proof (trimLeftDash_head s) as Hh.
  destruct (trimLeftDash s) as [|c t]; [done|].
  simpl. rewrite trimLeftDash_snoc by done.
  rewrite rev_app_distr. simpl. done.
Qed.

(** ... and it does not end with a dash. *)
Lemma trimEdgeDash_last (s : list ascii) :
  match rev (trimEdgeDash s) with
  | c :: _ => isDash c = false
  | [] => True
  end.
Proof.
  unfold trimEdgeDash. rewrite rev_involutive. apply trimLeftDash_head.
Qed.

Lemma trimEdgeDash_id (s : list ascii) :
  match s with c :: _ => isDash c = false | [] => True end →
  match rev s with c :: _ => isDash c = false | [] => True end →
  trimEdgeDash s = s.
Proof.
  intros Hh Hl. unfold trimEdgeDash.
  destruct s as [|c s]; [done|]. rewrite trimLeftDash_id by done.
  destruct (rev (c :: s)) as [|d t] eqn:Hr.
  - simpl in Hr. by destruct (rev s).
  - rewrite trimLeftDash_id by done. by rewrite <- Hr, rev_involutive.
Qed.

End SanitizerFacts.

(** ** The sanitizer: shape of the result *)

Section SanitizerShape.
Context `{External}.

Lemma trimLeftDash_nil (s : list ascii) :
  trimLeftDash s = [] ↔ forallb isDash s = true.
Proof.
  induction s as [|c s IH]; [done|]. simpl.
  destruct (isDash c); simpl; [done|]. split; congruence.
Qed.

Lemma trimEdgeDash_nil (s : list ascii) :
  trimEdgeDash s = [] ↔ forallb isDash s = true.
Proof.
  unfold trimEdgeDash. rewrite <- trimLeftDash_nil. split.
  - intros E. pose proof (trimLeftDash_head s) as Hh.
    destruct (trimLeftDash s) as [|c t]; [done|].
    simpl in E. rewrite trimLeftDash_snoc in E by done.
    rewrite rev_app_distr in E. done.
  - by intros ->.
Qed.

Lemma replace_alnum (b : bool) (s : list ascii) :
  existsb isAlnum (replaceNonDNSSafe b s) = existsb isAlnum s.
Proof.
  revert b. induction s as [|c s IH]; intros b; [done|]. simpl.
  rewrite dnsSafe_cases. destruct (isAlnum c) eqn:Hc; simpl.
  - by rewrite Hc, IH.
  - destruct (isDash c) eqn:Hd; simpl.
    + by rewrite Hc, IH.
    + destruct b; simpl; by rewrite IH.
Qed.

Lemma alnum_not_dash (c : ascii) : isAlnum c = true → isDash c = false.
Proof.
  destruct c as [[] [] [] [] [] [] [] []]; vm_compute; congruence.
Qed.

Lemma safe_all_dash (s : list ascii) :
  forallb dnsSafe s = true →
  forallb isDash s = negb (existsb isAlnum s).
Proof.
  induction s as [|c s IH]; [done|]. simpl.
  rewrite dnsSafe_cases. intros [Hc Hs]%andb_true_iff.
  rewrite IH by done. destruct (isAlnum c) eqn:Ha; simpl.
  - by rewrite (alnum_not_dash c Ha).
  - simpl in Hc. by rewrite Hc.
Qed.

Lemma sanitizeBytes_cons (c : ascii) (s : list ascii) :
  sanitizeBytes (c :: s) =
    if 63 <? length (trimmed (c :: s)) then take 63 (trimmed (c :: s))
    else trimmed (c :: s).
Proof. reflexivity. Qed.

Lemma trimmed_safe (name : list ascii) :
  forallb dnsSafe (trimmed name) = true.
Proof. apply trimEdgeDash_safe, replace_is_safe. Qed.

Lemma sanitizeBytes_safe (name : list ascii) :
  forallb dnsSafe (sanitizeBytes name) = true.
Proof.
  destruct name as [|c s]; [done|]. rewrite sanitizeBytes_cons.
  pose proof (trimmed_safe (c :: s)).
  case_match; [by apply forallb_take|done].
Qed.

Lemma sanitizeBytes_length (name : list ascii) :
  length (sanitizeBytes name) ≤ 63.
Proof.
  destruct name as [|c s]; [simpl; lia|]. rewrite sanitizeBytes_cons.
  destruct (63 <? length (trimmed (c :: s))) eqn:E.
  - rewrite length_take. lia.
  - apply Nat.ltb_ge in E. lia.
Qed.

Lemma sanitizeBytes_head (name : list ascii) :
  match sanitizeBytes name with
  | c :: _ => isDash c = false
  | [] => True
  end.
Proof.
  destruct name as [|c s]; [done|]. rewrite sanitizeBytes_cons.
  pose proof (trimEdgeDash_head (replaceNonDNSSafe false (ToLower (c :: s))))
    as Hh. fold (trimmed (c :: s)) in Hh.
  destruct (63 <? length (trimmed (c :: s))); [|done].
  by destruct (trimmed (c :: s)).
Qed.

Lemma sanitizeBytes_nil (name : list ascii) :
  sanitizeBytes name = [] ↔
  name ≠ [] ∧ existsb isAlnum (ToLower name) = false.
Proof.
  destruct name as [|c s]; [by split; [|intros [? _]]|].
  rewrite sanitizeBytes_cons.
  assert (trimmed (c :: s) = [] ↔
          existsb isAlnum (ToLower (c :: s)) = false) as Ht.
  { unfold trimmed. rewrite trimEdgeDash_nil, safe_all_dash, replace_alnum
      by apply replace_is_safe.
    by destruct (existsb isAlnum (ToLower (c :: s))). }
  rewrite <- Ht. destruct (63 <? length (trimmed (c :: s))) eqn:E.
  - apply Nat.ltb_lt in E. destruct (trimmed (c :: s)); simpl in *; [lia|].
    split; [done|]. by intros [_ ?].
  - split; [done|]. by intros [_ ?].
Qed.

(** C3, as the code has it: the result always matches
    [^[a-z0-9-]{0,63}$]; the empty name gives the constant [unnamed];
    and the result is not empty exactly when the name is empty or its
    lower-cased form holds a byte of [a-z0-9].  A name that is not empty
    and holds no such byte gives the empty string, not the constant. *)
Theorem sanitizeName_label (x : string) :
  isLabel (sanitizeName x) = true ∧
  sanitizeName "" = "unnamed" ∧
  (sanitizeName x ≠ "" ↔
     x = "" ∨ existsb isAlnum (ToLower (bytes x)) = true).
Proof.
  split; [|split; [done|]].
  - unfold isLabel, sanitizeName. rewrite bytes_str, <- length_bytes, bytes_str.
    rewrite sanitizeBytes_safe. simpl. apply Nat.leb_le, sanitizeBytes_length.
  - unfold sanitizeName. rewrite <- (bytes_nil (str _)), bytes_str.
    rewrite sanitizeBytes_nil, bytes_nil.
    destruct (decide (x = "")) as [->|Hx]; [split; [by left|by intros _ [? _]]|].
    destruct (existsb isAlnum (ToLower (bytes x))); split; intros Hn.
    + by right.
    + by intros [_ ?].
    + destruct Hn. done.
    + by destruct Hn.
Qed.

End SanitizerShape.

(** C3 fails as stated: the name ["-"] is not empty and its sanitized
    form is the empty string. *)
Lemma sanitizeName_dash_empty :
  "-" ≠ "" ∧ (∀ E : External, @sanitizeName E "-" = "").
Proof. split; [done|]. intros E. reflexivity. Qed.

(** ** The sanitizer applied twice *)

Section SanitizerTwice.
Context `{External}.

Lemma sanitizeBytes_fixpoint (y : list ascii) :
  y ≠ [] →
  forallb dnsSafe y = true →
  length y ≤ 63 →
  match y with c :: _ => isDash c = false | [] => True end →
  match rev y with c :: _ => isDash c = false | [] => True end →
  sanitizeBytes y = y.
Proof.
  intros Hne Hsafe Hlen Hhead Hlast.
  destruct y as [|c s]; [done|]. rewrite sanitizeBytes_cons. unfold trimmed.
  rewrite ToLower_safe, replace_safe, trimEdgeDash_id by done.
  by apply Nat.ltb_ge in Hlen as ->.
Qed.

Lemma trimLeftDash_length (s : list ascii) :
  length (trimLeftDash s) ≤ length s.
Proof.
  induction s as [|c s IH]; [done|]. simpl.
  destruct (isDash c); simpl; lia.
Qed.

Lemma trimEdgeDash_length (s : list ascii) :
  length (trimEdgeDash s) ≤ length s.
Proof.
  unfold trimEdgeDash. rewrite length_rev.
  etrans; [apply trimLeftDash_length|].
  rewrite length_rev. apply trimLeftDash_length.
Qed.

Lemma endsWithDash_str (y : list ascii) :
  endsWithDash (str y) =
    match rev y with c :: _ => isDash c | [] => false end.
Proof. unfold endsWithDash. by rewrite bytes_str. Qed.

(** C2, as the code has it: sanitizing a second time changes nothing
    when the first result is not empty and does not end with a dash. *)
Theorem sanitizeName_idempotent (x : string) :
  sanitizeName x ≠ "" →
  endsWithDash (sanitizeName x) = false →
  sanitizeName (sanitizeName x) = sanitizeName x.
Proof.
  unfold sanitizeName. intros Hne Hend.
  rewrite bytes_str. f_equal.
  rewrite endsWithDash_str in Hend.
  apply sanitizeBytes_fixpoint.
  - intros E. apply Hne. by rewrite E.
  - apply sanitizeBytes_safe.
  - apply sanitizeBytes_length.
  - apply sanitizeBytes_head.
  - by destruct (rev (sanitizeBytes (bytes x))).
Qed.

(** The two conditions are needed: an empty first result becomes the
    constant, and a dash left at the end by the truncation is trimmed. *)
Lemma sanitizeName_twice_differs (x : string) :
  sanitizeName x = "" ∨ endsWithDash (sanitizeName x) = true →
  sanitizeName (sanitizeName x) ≠ sanitizeName x.
Proof.
  intros [E|E].
  - rewrite E. by intros E'.
  - unfold sanitizeName in *. rewrite bytes_str. intros E'%str_inj.
    rewrite endsWithDash_str in E.
    pose proof (sanitizeBytes_length (bytes x)) as Hlen.
    pose proof (sanitizeBytes_safe (bytes x)) as Hsafe.
    destruct (sanitizeBytes (bytes x)) as [|c s]; [done|].
    rewrite sanitizeBytes_cons in E'. unfold trimmed in E'.
    rewrite ToLower_safe, replace_safe in E' by done.
    pose proof (trimEdgeDash_length (c :: s)) as Hle.
    pose proof (trimEdgeDash_last (c :: s)) as Hl.
    destruct (63 <? length (trimEdgeDash (c :: s))) eqn:Hlt.
    + apply Nat.ltb_lt in Hlt. lia.
    + rewrite E' in Hl. destruct (rev (c :: s)); congruence.
Qed.

End SanitizerTwice.

Lemma sanitizeName_twice_dash (E : External) :
  sanitizeName "-" = "" ∧ sanitizeName (sanitizeName "-") = "unnamed".
Proof. split; reflexivity. Qed.

(** A name of 64 bytes whose 63rd byte is a dash: the truncation leaves
    the dash at the end and the second pass removes it. *)
Lemma sanitizeName_twice_long (E : External) :
  String.length longName = 64 ∧
  sanitizeName longName =
    "aaaaaaaaaaaaaaaaaaaaaaaaaaaaaaaaaaaaaaaaaaaaaaaaaaaaaaaaaaaaaa-" ∧
  sanitizeName (sanitizeName longName) =
    "aaaaaaaaaaaaaaaaaaaaaaaaaaaaaaaaaaaaaaaaaaaaaaaaaaaaaaaaaaaaaa".
Proof. repeat split; reflexivity. Qed.

(** C2 fails as stated: at ["-"] the first pass gives the empty string
    and the second the constant [unnamed]. *)
Lemma sanitizeName_not_idempotent :
  ¬ (∀ (E : External) (x : string),
       sanitizeName (sanitizeName x) = sanitizeName x).
Proof.
  intros Hall. specialize (Hall asciiExternal "-").
  destruct (sanitizeName_twice_dash asciiExternal) as [E1 E2].
  rewrite E2, E1 in Hall. discriminate.
Qed.

Lemma sanitizeName_idempotent_witness :
  @sanitizeName asciiExternal (@sanitizeName asciiExternal "Build & Test")
  = @sanitizeName asciiExternal "Build & Test".
Proof.
  apply (@sanitizeName_idempotent asciiExternal "Build & Test").
  - vm_compute. discriminate.
  - vm_compute. reflexivity.
Defined.

(** ** The loops of the translator *)

Section Loops.
Context `{External}.

Lemma convertSteps_from (name : string) (runsOn : list string)
    (steps : list Step) (i : nat)
    (jobSteps : list ParallelSteps) (stepTemplates : list Template) :
  convertSteps name runsOn i steps jobSteps stepTemplates =
    (jobSteps ++ imap (λ k ghaStep, [stepRef name (i + k) ghaStep]) steps,
     stepTemplates ++
       omap id (imap (λ k, stepTemplateAt name runsOn (i + k)) steps)).
Proof.
  revert i jobSteps stepTemplates.
  induction steps as [|ghaStep rest IH]; intros i jobSteps stepTemplates.
  - simpl. by rewrite !app_nil_r.
  - assert (imap (λ k g, [stepRef name (S i + k) g]) rest
            = imap ((λ k g, [stepRef name (i + k) g]) ∘ S) rest) as Hrefs
      by (apply imap_ext; intros k x _; simpl; repeat f_equal; lia).
    assert (imap (λ k, stepTemplateAt name runsOn (S i + k)) rest
            = imap ((λ k, stepTemplateAt name runsOn (i + k)) ∘ S) rest)
      as Htpls
      by (apply imap_ext; intros k x _; simpl; repeat f_equal; lia).
    cbn [convertSteps imap]. unfold stepTemplateAt at 1.
    rewrite Nat.add_0_r.
    destruct (stepScript (baseImageOf runsOn) ghaStep) as [script|];
      rewrite IH, Hrefs, Htpls; cbn [omap list_omap id];
      by rewrite <- ?app_assoc.
Qed.

Lemma convertJob_eq (st : JobsState) (jobName : string) (ghaJob : Job) :
  convertJob st jobName ghaJob =
    {| jobNames := jobNames st ++ [sanitizeName jobName];
       jobTemplates :=
         <[sanitizeName jobName := jobTemplateOf jobName ghaJob]>
           (jobTemplates st);
       jobDependencies :=
         <[sanitizeName jobName := Job_Needs ghaJob]> (jobDependencies st);
       Templates := Templates st ++ templatesOfJob (jobName, ghaJob) |}.
Proof.
  unfold convertJob. rewrite convertSteps_from. simpl.
  unfold templatesOfJob, jobTemplateOf, stepTemplatesOf, stepRefsOf. simpl.
  by rewrite <- app_assoc.
Qed.

Lemma foldJobs_snoc (st : JobsState) (jobs : list (string * Job))
    (kv : string * Job) :
  foldJobs st (jobs ++ [kv]) = convertJob (foldJobs st jobs) kv.1 kv.2.
Proof. unfold foldJobs. by rewrite fold_left_app. Qed.

Lemma jobNames_foldJobs (st : JobsState) (jobs : list (string * Job)) :
  jobNames (foldJobs st jobs) = jobNames st ++ map templateNameOf jobs.
Proof.
  revert st. induction jobs as [|[k j] jobs IH]; intros st; simpl.
  - by rewrite app_nil_r.
  - unfold foldJobs in *. simpl. rewrite IH, convertJob_eq. simpl.
    by rewrite <- app_assoc.
Qed.

Lemma Templates_foldJobs (st : JobsState) (jobs : list (string * Job)) :
  Templates (foldJobs st jobs) = Templates st ++ flat_map templatesOfJob jobs.
Proof.
  revert st. induction jobs as [|[k j] jobs IH]; intros st; simpl.
  - by rewrite app_nil_r.
  - unfold foldJobs in *. simpl. rewrite IH, convertJob_eq. simpl.
    by rewrite <- app_assoc.
Qed.

Lemma jobNames_convertJobs (jobs : list (string * Job)) :
  jobNames (convertJobs jobs) = map templateNameOf jobs.
Proof. apply (jobNames_foldJobs initJobs). Qed.

Lemma Templates_convertJobs (jobs : list (string * Job)) :
  Templates (convertJobs jobs) = flat_map templatesOfJob jobs.
Proof. apply (Templates_foldJobs initJobs). Qed.

End Loops.

(** ** The document *)

Section Document.
Context `{External}.

Lemma convertWorkflow_single (name : string) (kv : string * Job) :
  Spec (convertWorkflow {| Workflow_Name := name; Workflow_Jobs := [kv] |}) =
    {| WorkflowSpec_Templates := templatesOfJob kv;
       WorkflowSpec_Entrypoint := templateNameOf kv;
       WorkflowSpec_Parallelism := Some 50%Z |}.
Proof.
  unfold convertWorkflow. cbn [Workflow_Jobs Spec].
  rewrite jobNames_convertJobs, Templates_convertJobs. simpl.
  by rewrite app_nil_r.
Qed.

Lemma convertWorkflow_multi (name : string) (jobs : list (string * Job)) :
  length jobs ≠ 1 →
  Spec (convertWorkflow {| Workflow_Name := name; Workflow_Jobs := jobs |}) =
    {| WorkflowSpec_Templates :=
         flat_map templatesOfJob jobs ++ [mainDAG (dagTasksOf jobs)];
       WorkflowSpec_Entrypoint := "main-dag";
       WorkflowSpec_Parallelism := Some 50%Z |}.
Proof.
  intros Hlen. unfold convertWorkflow. cbn [Workflow_Jobs Spec].
  rewrite jobNames_convertJobs, Templates_convertJobs. unfold dagTasksOf.
  destruct jobs as [|kv [|kv' rest]]; simpl in *; done.
Qed.

Lemma stepTemplatesOf_elem (jobName : string) (ghaJob : Job) (t : Template) :
  t ∈ stepTemplatesOf jobName ghaJob ↔
  ∃ i ghaStep, Job_Steps ghaJob !! i = Some ghaStep ∧
    stepTemplateAt (sanitizeName jobName) (Job_RunsOn ghaJob) i ghaStep
      = Some t.
Proof.
  unfold stepTemplatesOf. rewrite list_elem_of_omap. split.
  - intros (o & Ho & E). simpl in E. subst o.
    apply elem_of_lookup_imap in Ho as (i & ghaStep & E & Hi). eauto.
  - intros (i & ghaStep & Hi & E). exists (Some t). split; [|done].
    apply elem_of_lookup_imap. eauto.
Qed.

Lemma stepTemplateAt_Some (name : string) (runsOn : list string) (i : nat)
    (ghaStep : Step) (t : Template) :
  stepTemplateAt name runsOn i ghaStep = Some t →
  Template_DAG t = None ∧ Template_Steps t = None ∧
  Template_Name t = name +:+ "-" +:+ stepNameAt i ghaStep ∧
  Template_Script t = stepScript (baseImageOf runsOn) ghaStep.
Proof.
  unfold stepTemplateAt.
  destruct (stepScript (baseImageOf runsOn) ghaStep); [|done].
  by intros [= <-].
Qed.

Lemma templatesOfJob_no_DAG (kv : string * Job) :
  List.filter isDAGTemplate (templatesOfJob kv) = [].
Proof.
  assert (∀ l, Forall (λ t, Template_DAG t = None) l →
               List.filter isDAGTemplate l = []) as Hfilter.
  { induction 1 as [|t l Ht _ IH]; [done|]. simpl.
    unfold isDAGTemplate at 1. rewrite Ht.
    rewrite bool_decide_eq_false_2; [done|]. by intros [? ?]. }
  apply Hfilter. constructor; [done|].
  apply Forall_forall. intros t (i & ghaStep & _ & Ht)%stepTemplatesOf_elem.
  by apply stepTemplateAt_Some in Ht as [? _].
Qed.

Lemma jobs_no_DAG (jobs : list (string * Job)) :
  List.filter isDAGTemplate (flat_map templatesOfJob jobs) = [].
Proof.
  induction jobs as [|kv jobs IH]; [done|].
  cbn [flat_map]. by rewrite List.filter_app, templatesOfJob_no_DAG, IH.
Qed.

Lemma dagTasksOf_names (jobs : list (string * Job)) :
  map DAGTask_Name (dagTasksOf jobs) = map templateNameOf jobs ∧
  map DAGTask_Template (dagTasksOf jobs) = map templateNameOf jobs.
Proof.
  unfold dagTasksOf. split; rewrite map_map; simpl; apply map_id.
Qed.

(** C4: with exactly one job the entrypoint is the sanitized job id and
    no template of the document is a DAG; with more than one job the
    document ends with the one DAG template, named [main-dag], whose
    tasks are the sanitized job ids in the order of the job templates,
    and the entrypoint is [main-dag]. *)
Theorem entrypoint_policy (wf : model.Workflow) :
  let jobs := Workflow_Jobs wf in
  let spec := Spec (convertWorkflow wf) in
  (∀ jobName ghaJob, jobs = [(jobName, ghaJob)] →
     WorkflowSpec_Entrypoint spec = sanitizeName jobName ∧
     List.filter isDAGTemplate (WorkflowSpec_Templates spec) = []) ∧
  (1 < length jobs →
     ∃ tasks,
       WorkflowSpec_Templates spec
         = flat_map templatesOfJob jobs ++ [mainDAG tasks] ∧
       List.filter isDAGTemplate (WorkflowSpec_Templates spec)
         = [mainDAG tasks] ∧
       Template_Name (mainDAG tasks) = "main-dag" ∧
       map DAGTask_Name tasks = map (λ kv, sanitizeName kv.1) jobs ∧
       map DAGTask_Template tasks = map (λ kv, sanitizeName kv.1) jobs ∧
       WorkflowSpec_Entrypoint spec = "main-dag").
Proof.
  destruct wf as [name jobs]. cbn [Workflow_Jobs]. split.
  - intros jobName ghaJob ->. rewrite convertWorkflow_single.
    cbn [WorkflowSpec_Entrypoint WorkflowSpec_Templates].
    split; [done|]. apply templatesOfJob_no_DAG.
  - intros Hlen. rewrite convertWorkflow_multi by lia.
    cbn [WorkflowSpec_Entrypoint WorkflowSpec_Templates].
    exists (dagTasksOf jobs). destruct (dagTasksOf_names jobs) as [Hn Ht].
    repeat split; try done.
    by rewrite List.filter_app, jobs_no_DAG.
Qed.

(** C10: with no job the translator takes the branch of several jobs:
    the document holds the DAG template [main-dag] alone, with no task,
    and [main-dag] is the entrypoint. *)
Theorem zero_jobs_dag (name : string) :
  convertWorkflow {| Workflow_Name := name; Workflow_Jobs := [] |} =
    {| APIVersion := "argoproj.io/v1alpha1";
       Kind := "Workflow";
       GenerateName := sanitizeName name +:+ "-";
       Spec := {| WorkflowSpec_Templates := [mainDAG []];
                  WorkflowSpec_Entrypoint := "main-dag";
                  WorkflowSpec_Parallelism := Some 50%Z |} |}.
Proof.
  unfold convertWorkflow. cbn [Workflow_Jobs Workflow_Name].
  rewrite jobNames_convertJobs, Templates_convertJobs. reflexivity.
Qed.

(** The translator fails only when the parser does. *)
Lemma convertGHAtoArgo_parsed (ghaYAML : string) (ghaWF : model.Workflow) :
  ReadWorkflow ghaYAML = inr ghaWF →
  convertGHAtoArgo ghaYAML = inr (convertWorkflow ghaWF).
Proof. unfold convertGHAtoArgo. by intros ->. Qed.

End Document.

(** ** The templates of a job *)

Section JobTemplates.
Context `{External}.

Lemma convertWorkflow_templates (wf : model.Workflow) :
  ∃ tail, WorkflowSpec_Templates (Spec (convertWorkflow wf)) =
            flat_map templatesOfJob (Workflow_Jobs wf) ++ tail.
Proof.
  destruct wf as [name jobs]. cbn [Workflow_Jobs].
  destruct (decide (length jobs = 1)) as [Hlen|Hlen].
  - destruct jobs as [|kv [|? ?]]; try done. exists [].
    rewrite convertWorkflow_single. simpl. by rewrite !app_nil_r.
  - rewrite convertWorkflow_multi by done. eauto.
Qed.

Lemma templates_of_job (wf : model.Workflow) (kv : string * Job) :
  kv ∈ Workflow_Jobs wf →
  ∃ before after,
    WorkflowSpec_Templates (Spec (convertWorkflow wf)) =
      before ++ templatesOfJob kv ++ after.
Proof.
  intros (l1 & l2 & E)%list_elem_of_split.
  destruct (convertWorkflow_templates wf) as [tail ->]. rewrite E.
  rewrite flat_map_app. cbn [flat_map].
  exists (flat_map templatesOfJob l1), (flat_map templatesOfJob l2 ++ tail).
  by rewrite <- !app_assoc.
Qed.

Lemma step_template_in_document (wf : model.Workflow) (jobName : string)
    (ghaJob : Job) (i : nat) (ghaStep : Step) (t : Template) :
  (jobName, ghaJob) ∈ Workflow_Jobs wf →
  Job_Steps ghaJob !! i = Some ghaStep →
  stepTemplateAt (sanitizeName jobName) (Job_RunsOn ghaJob) i ghaStep
    = Some t →
  t ∈ WorkflowSpec_Templates (Spec (convertWorkflow wf)).
Proof.
  intros Hjob Hi Ht.
  destruct (templates_of_job wf _ Hjob) as (before & after & ->).
  apply elem_of_app. right. apply elem_of_app. left.
  unfold templatesOfJob. apply elem_of_cons. right.
  apply stepTemplatesOf_elem. eauto.
Qed.

Lemma stepScript_skipped (baseImage : string) (ghaStep : Step) :
  isSkipped ghaStep = true ↔ stepScript baseImage ghaStep = None.
Proof.
  unfold isSkipped, stepScript.
  destruct (decide (Step_Run ghaStep ≠ "")) as [Hr|Hr].
  - rewrite bool_decide_eq_false_2 by done. done.
  - apply dec_stable in Hr. rewrite bool_decide_eq_true_2 by done.
    destruct (decide (Step_Uses ghaStep ≠ "")) as [Hu|Hu].
    + rewrite bool_decide_eq_false_2 by done. done.
    + apply dec_stable in Hu. by rewrite bool_decide_eq_true_2.
Qed.

Lemma stepScript_run (baseImage : string) (ghaStep : Step) :
  isRunStep ghaStep = true →
  stepScript baseImage ghaStep =
    Some {| ScriptTemplate_Container :=
              {| Container_Image := baseImage;
                 Container_Command := ["bash"; "-c"] |};
            ScriptTemplate_Source := Step_Run ghaStep |}.
Proof.
  unfold isRunStep, stepScript. intros Hr%bool_decide_eq_true.
  by rewrite decide_True.
Qed.

Lemma stepScript_uses (baseImage : string) (ghaStep : Step) :
  isUsesStep ghaStep = true →
  stepScript baseImage ghaStep =
    Some {| ScriptTemplate_Container :=
              {| Container_Image := "alpine:latest";
                 Container_Command := ["sh"; "-c"] |};
            ScriptTemplate_Source :=
              placeholderSource (Step_Uses ghaStep) (withParamsOf ghaStep) |}.
Proof.
  unfold isUsesStep, stepScript.
  intros [Hr%bool_decide_eq_true Hu%bool_decide_eq_true]%andb_true_iff.
  rewrite decide_False by (by intros ?). by rewrite decide_True.
Qed.

Lemma step_kinds (ghaStep : Step) :
  isSkipped ghaStep = false →
  isRunStep ghaStep = false →
  isUsesStep ghaStep = true.
Proof.
  unfold isSkipped, isRunStep, isUsesStep.
  intros Hs Hr%bool_decide_eq_false. apply dec_stable in Hr.
  rewrite bool_decide_eq_true_2 in * by done. simpl in *.
  apply bool_decide_eq_false in Hs. by rewrite bool_decide_eq_true_2.
Qed.

End JobTemplates.

(** ** Substrings *)

Lemma string_app_cons (c : ascii) (s t : string) :
  String c s +:+ t = String c (s +:+ t).
Proof. reflexivity. Qed.

Lemma string_app_nil (t : string) : "" +:+ t = t.
Proof. reflexivity. Qed.

Lemma string_app_assoc (s1 s2 s3 : string) :
  (s1 +:+ s2) +:+ s3 = s1 +:+ (s2 +:+ s3).
Proof.
  induction s1 as [|c s1 IH]; [done|].
  by rewrite !string_app_cons, IH.
Qed.

Lemma prefix_app (p s : string) :
  String.prefix p s = true ↔ ∃ post, s = p +:+ post.
Proof.
  revert s. induction p as [|c p IH]; intros s.
  - split; [intros _; by exists s|]. by destruct s.
  - destruct s as [|d s]; simpl.
    + split; [done|]. by intros [? ?].
    + destruct (ascii_dec c d) as [->|Hne].
      * rewrite IH. split; intros [post E]; exists post.
        -- by rewrite string_app_cons, E.
        -- rewrite string_app_cons in E. congruence.
      * split; [done|]. intros [? E]. rewrite string_app_cons in E.
        congruence.
Qed.

(** [Contains] finds exactly the substrings. *)
Lemma Contains_app (s substr : string) :
  Contains s substr = true ↔ ∃ pre post, s = pre +:+ substr +:+ post.
Proof.
  induction s as [|c s IH].
  - cbn [Contains]. rewrite orb_false_r, prefix_app. split.
    + intros [post E]. by exists "", post.
    + intros ([|? ?] & post & E); [eauto|done].
  - cbn [Contains]. rewrite orb_true_iff, prefix_app, IH. split.
    + intros [[post E]|(pre & post & E)].
      * by exists "", post.
      * exists (String c pre), post. by rewrite string_app_cons, E.
    + intros ([|d pre] & post & E).
      * left. by exists post.
      * right. exists pre, post. rewrite string_app_cons in E. congruence.
Qed.

Lemma substring_all (s : string) :
  String.substring 0 (String.length s) s = s.
Proof. induction s as [|c s IH]; simpl; congruence. Qed.

Lemma string_app_length (s t : string) :
  String.length (s +:+ t) = String.length s + String.length t.
Proof.
  induction s as [|c s IH]; [done|].
  rewrite string_app_cons. simpl. by rewrite IH.
Qed.

Lemma TrimPrefix_app (prefix s : string) :
  TrimPrefix (prefix +:+ s) prefix = s.
Proof.
  unfold TrimPrefix.
  assert (String.prefix prefix (prefix +:+ s) = true) as ->
    by (apply prefix_app; eauto).
  rewrite string_app_length.
  replace (String.length prefix + String.length s - String.length prefix)
    with (String.length s) by lia.
  induction prefix as [|c p IH]; [apply substring_all|].
  by rewrite string_app_cons.
Qed.

(** The table of the image mapper, read in order: the first label found
    as a substring decides, and no label found gives the default. *)
Lemma mapRunsOnToImage_table (runsOn : string) :
  let has label := ∃ pre post, runsOn = pre +:+ label +:+ post in
  (has "ubuntu-22.04" ∨ has "ubuntu-latest" →
     mapRunsOnToImage runsOn = "ubuntu:22.04") ∧
  (¬ has "ubuntu-22.04" → ¬ has "ubuntu-latest" → has "ubuntu-20.04" →
     mapRunsOnToImage runsOn = "ubuntu:20.04") ∧
  (¬ has "ubuntu-22.04" → ¬ has "ubuntu-latest" → ¬ has "ubuntu-20.04" →
     mapRunsOnToImage runsOn = "alpine:latest").
Proof.
  intros has. unfold mapRunsOnToImage.
  pose proof (Contains_app runsOn "ubuntu-22.04") as H22.
  pose proof (Contains_app runsOn "ubuntu-latest") as Hl.
  pose proof (Contains_app runsOn "ubuntu-20.04") as H20.
  fold (has "ubuntu-22.04") in H22. fold (has "ubuntu-latest") in Hl.
  fold (has "ubuntu-20.04") in H20.
  destruct (Contains runsOn "ubuntu-22.04"), (Contains runsOn "ubuntu-latest"),
    (Contains runsOn "ubuntu-20.04"); simpl; intuition congruence.
Qed.

(** ** Steps and their templates *)

Section Steps.
Context `{External}.

(** C5, as the code has it: the template of a step that is not skipped
    is in the document under the name [<job>-<step>]; for a [run] step
    its image is the image mapper applied to the first [runs-on] label,
    or [alpine:latest] when the job has none; for a [uses] step it is
    always [alpine:latest]. *)
Theorem script_image (wf : model.Workflow) (jobName : string) (ghaJob : Job)
    (i : nat) (ghaStep : Step) :
  (jobName, ghaJob) ∈ Workflow_Jobs wf →
  Job_Steps ghaJob !! i = Some ghaStep →
  isSkipped ghaStep = false →
  ∃ t script,
    t ∈ WorkflowSpec_Templates (Spec (convertWorkflow wf)) ∧
    Template_Name t = sanitizeName jobName +:+ "-" +:+ stepNameAt i ghaStep ∧
    Template_Script t = Some script ∧
    Container_Image (ScriptTemplate_Container script) =
      if isRunStep ghaStep then
        match Job_RunsOn ghaJob with
        | label :: _ => mapRunsOnToImage label
        | [] => "alpine:latest"
        end
      else "alpine:latest".
Proof.
  intros Hjob Hi Hskip.
  destruct (stepTemplateAt (sanitizeName jobName) (Job_RunsOn ghaJob) i ghaStep)
    as [t|] eqn:Ht.
  - pose proof (step_template_in_document wf _ _ _ _ _ Hjob Hi Ht) as Hin.
    apply stepTemplateAt_Some in Ht as (_ & _ & Hname & Hscript).
    destruct (isRunStep ghaStep) eqn:Hrun.
    + rewrite stepScript_run in Hscript by done.
      eexists t, _. by repeat (split; [done|]).
    + rewrite stepScript_uses in Hscript by by apply step_kinds.
      eexists t, _. by repeat (split; [done|]).
  - unfold stepTemplateAt in Ht.
    destruct (stepScript (baseImageOf (Job_RunsOn ghaJob)) ghaStep) eqn:Hs;
      [done|].
    apply stepScript_skipped in Hs. congruence.
Qed.

(** C9: the templates of a job stand together in the document: first
    the steps template, which refers to every step of the job in step
    order, then the script templates of the steps that are not skipped,
    in step order, each under the name its reference gives.  A skipped
    step has no script template, and a job whose steps are all skipped
    has none at all while its steps template is still there. *)
Theorem skipped_steps (wf : model.Workflow) (jobName : string) (ghaJob : Job) :
  (jobName, ghaJob) ∈ Workflow_Jobs wf →
  let name := sanitizeName jobName in
  let steps := Job_Steps ghaJob in
  let at_ := stepTemplateAt name (Job_RunsOn ghaJob) in
  let jobTemplate :=
    {| Template_Name := name;
       Template_Steps := Some (imap (λ i ghaStep, [stepRef name i ghaStep]) steps);
       Template_Script := None;
       Template_DAG := None |} in
  ∃ before scripts after,
    WorkflowSpec_Templates (Spec (convertWorkflow wf)) =
      before ++ jobTemplate :: scripts ++ after ∧
    scripts = omap id (imap at_ steps) ∧
    (∀ i ghaStep, steps !! i = Some ghaStep →
       if isSkipped ghaStep then at_ i ghaStep = None
       else ∃ t, at_ i ghaStep = Some t ∧
                 isScriptTemplate t = true ∧
                 Template_Name t = WorkflowStep_Template (stepRef name i ghaStep)) ∧
    (forallb isSkipped steps = true → scripts = []).
Proof.
  intros Hjob name steps at_ jobTemplate.
  destruct (templates_of_job wf _ Hjob) as (before & after & E).
  exists before, (stepTemplatesOf jobName ghaJob), after.
  split; [by rewrite E|]. split; [done|].
  assert (∀ i ghaStep, isSkipped ghaStep = true → at_ i ghaStep = None)
    as Hnone.
  { intros i ghaStep Hs. unfold at_, stepTemplateAt.
    by apply (stepScript_skipped (baseImageOf (Job_RunsOn ghaJob))) in Hs as ->. }
  split.
  - intros i ghaStep Hi. destruct (isSkipped ghaStep) eqn:Hs; [by apply Hnone|].
    unfold at_, stepTemplateAt.
    destruct (stepScript (baseImageOf (Job_RunsOn ghaJob)) ghaStep) eqn:Hsc.
    + eexists. split; [done|]. split; [|done].
      done.
    + apply stepScript_skipped in Hsc. congruence.
  - intros Hall. apply elem_of_nil_inv.
    intros t (i & ghaStep & Hi & Ht)%stepTemplatesOf_elem.
    fold name at_ in Ht. rewrite Hnone in Ht; [done|].
    rewrite forallb_forall in Hall. apply Hall.
    by apply list_elem_of_In, list_elem_of_lookup_2 with i.
Qed.

End Steps.

(** ** The sample workflow [ciWorkflow] *)

(** The [uses] step of a job that runs on [ubuntu-latest] gets the image
    [alpine:latest], not the image mapped from the label. *)
Lemma checkout_image (E : External) :
  baseImageOf (Job_RunsOn testJob) = "ubuntu:22.04" ∧
  stepScript (baseImageOf (Job_RunsOn testJob)) checkoutStep =
    Some {| ScriptTemplate_Container :=
              {| Container_Image := "alpine:latest";
                 Container_Command := ["sh"; "-c"] |};
            ScriptTemplate_Source :=
              placeholderSource "actions/checkout@v3"
                "Parameters (with): map[fetch-depth:0]" |}.
Proof. split; reflexivity. Qed.

(** C5 fails as stated: in [ciWorkflow] the step [actions/checkout] is
    not skipped, its job runs on [ubuntu-latest], and the image of its
    template is not the one the image mapper gives for that label. *)
Lemma uses_step_image_fixed :
  ¬ (∀ (E : External) (wf : model.Workflow) (jobName : string)
       (ghaJob : Job) (i : nat) (ghaStep : Step) (t : Template)
       (script : ScriptTemplate),
       (jobName, ghaJob) ∈ Workflow_Jobs wf →
       Job_Steps ghaJob !! i = Some ghaStep →
       isSkipped ghaStep = false →
       t ∈ WorkflowSpec_Templates (Spec (convertWorkflow wf)) →
       Template_Name t
         = sanitizeName jobName +:+ "-" +:+ stepNameAt i ghaStep →
       Template_Script t = Some script →
       Container_Image (ScriptTemplate_Container script) =
         match Job_RunsOn ghaJob with
         | label :: _ => mapRunsOnToImage label
         | [] => "alpine:latest"
         end).
Proof.
  intros Hall.
  destruct (checkout_image asciiExternal) as [Hbase Hscript].
  pose (t := {| Template_Name := "test-unnamed";
                Template_Steps := None;
                Template_Script :=
                  stepScript (baseImageOf (Job_RunsOn testJob)) checkoutStep;
                Template_DAG := None |}).
  assert (t ∈ WorkflowSpec_Templates
                (Spec (@convertWorkflow asciiExternal ciWorkflow))) as Hin.
  { apply (step_template_in_document ciWorkflow "test" testJob 0 checkoutStep);
      [apply list_elem_of_here|reflexivity|reflexivity]. }
  specialize (Hall asciiExternal ciWorkflow "test" testJob 0 checkoutStep t _
                (list_elem_of_here _ _) eq_refl eq_refl Hin eq_refl Hscript).
  discriminate Hall.
Qed.

Lemma script_image_witness :
  ∃ t script,
    t ∈ WorkflowSpec_Templates (Spec (@convertWorkflow asciiExternal ciWorkflow)) ∧
    Template_Name t = "test-run-tests" ∧
    Template_Script t = Some script ∧
    Container_Image (ScriptTemplate_Container script) = "ubuntu:22.04".
Proof.
  apply (@script_image asciiExternal ciWorkflow "test" testJob 2 testStep).
  - apply list_elem_of_here.
  - reflexivity.
  - reflexivity.
Defined.

Lemma skipped_steps_witness :
  ∃ before scripts after,
    WorkflowSpec_Templates (Spec (@convertWorkflow asciiExternal ciWorkflow)) =
      before ++
      {| Template_Name := "test";
         Template_Steps :=
           Some [[{| WorkflowStep_Name := "unnamed";
                     WorkflowStep_Template := "test-unnamed" |}];
                 [{| WorkflowStep_Name := "nothing";
                     WorkflowStep_Template := "test-nothing" |}];
                 [{| WorkflowStep_Name := "run-tests";
                     WorkflowStep_Template := "test-run-tests" |}]];
         Template_Script := None;
         Template_DAG := None |} :: scripts ++ after ∧
    map Template_Name scripts = ["test-unnamed"; "test-run-tests"].
Proof.
  destruct (@skipped_steps asciiExternal ciWorkflow "test" testJob
              (list_elem_of_here _ _))
    as (before & scripts & after & Hdoc & Hscripts & _).
  exists before, scripts, after. split; [exact Hdoc|].
  rewrite Hscripts. reflexivity.
Defined.

Lemma entrypoint_policy_witness :
  WorkflowSpec_Entrypoint (Spec (@convertWorkflow asciiExternal ciWorkflow))
    = "test" ∧
  WorkflowSpec_Entrypoint (Spec (@convertWorkflow asciiExternal needsWorkflow))
    = "main-dag".
Proof.
  destruct (@entrypoint_policy asciiExternal ciWorkflow) as [Hone _].
  destruct (@entrypoint_policy asciiExternal needsWorkflow) as [_ Hmany].
  split.
  - apply (Hone "test" testJob eq_refl).
  - destruct Hmany as (tasks & _ & _ & _ & _ & _ & Hentry);
      [simpl; lia|exact Hentry].
Defined.

(** ** Dependencies *)

Section Dependencies.
Context `{External}.

(** The guard [len(deps) > 0] changes nothing: the task gets what the
    map holds. *)
Lemma dagTaskOf_lookup (deps : gmap string (list string)) (n : string)
    (d : list string) :
  deps !! n = Some d →
  dagTaskOf deps n =
    {| DAGTask_Name := n; DAGTask_Template := n; DAGTask_Dependencies := d |}.
Proof.
  intros Hd. unfold dagTaskOf. rewrite Hd.
  destruct (decide (0 < length d)) as [|Hlen]; [done|].
  destruct d; [done|]. simpl in Hlen. lia.
Qed.

(** The map of dependencies holds, under a template name, the [needs]
    of the job visited last among those with that name, as the source
    document writes them. *)
Lemma jobDependencies_last (before after : list (string * Job))
    (kv : string * Job) :
  templateNameOf kv ∉ map templateNameOf after →
  jobDependencies (convertJobs (before ++ kv :: after)) !! templateNameOf kv
    = Some (Job_Needs kv.2).
Proof.
  unfold convertJobs.
  induction after as [|x after IH] using rev_ind; intros Hlast.
  - rewrite foldJobs_snoc, convertJob_eq. apply lookup_insert_eq.
  - rewrite map_app in Hlast. apply not_elem_of_app in Hlast as [Hafter Hx].
    replace (before ++ kv :: after ++ [x])
      with ((before ++ kv :: after) ++ [x]) by by rewrite <- app_assoc.
    rewrite foldJobs_snoc, convertJob_eq. cbn [jobDependencies].
    rewrite lookup_insert_ne; [by apply IH|].
    intros E. apply Hx. rewrite <- E. apply list_elem_of_here.
Qed.

(** When the template names are distinct, these are the [needs] of the
    job itself. *)
Lemma jobDependencies_lookup (jobs : list (string * Job)) (kv : string * Job) :
  NoDup (map templateNameOf jobs) →
  kv ∈ jobs →
  jobDependencies (convertJobs jobs) !! templateNameOf kv
    = Some (Job_Needs kv.2).
Proof.
  intros Hnd (before & after & ->)%list_elem_of_split.
  apply jobDependencies_last.
  rewrite map_app in Hnd. apply NoDup_app in Hnd as (_ & _ & Hnd).
  by apply NoDup_cons in Hnd as [? _].
Qed.

Lemma dagTasksOf_distinct (jobs : list (string * Job)) :
  NoDup (map templateNameOf jobs) →
  dagTasksOf jobs = map taskOfJob jobs.
Proof.
  intros Hnd. unfold dagTasksOf. rewrite map_map.
  apply map_ext_in. intros kv Hin%list_elem_of_In.
  by apply dagTaskOf_lookup, jobDependencies_lookup.
Qed.

(** C1 at the jobs [A] and [B] with [B.needs = [A]]: the task of [B] is
    named [b] and depends on ["A"], the name as the source document
    writes it, while the task of [A] is named [a]. *)
Theorem needs_not_sanitized :
  sanitizeName "A" = "a" ∧
  WorkflowSpec_Templates (Spec (convertWorkflow needsWorkflow)) =
    [ {| Template_Name := "a"; Template_Steps := Some [];
         Template_Script := None; Template_DAG := None |};
      {| Template_Name := "b"; Template_Steps := Some [];
         Template_Script := None; Template_DAG := None |};
      mainDAG
        [ {| DAGTask_Name := "a"; DAGTask_Template := "a";
             DAGTask_Dependencies := [] |};
          {| DAGTask_Name := "b"; DAGTask_Template := "b";
             DAGTask_Dependencies := ["A"] |} ] ].
Proof.
  split; [reflexivity|].
  unfold needsWorkflow. rewrite convertWorkflow_multi by (simpl; lia).
  cbn [WorkflowSpec_Templates].
  rewrite dagTasksOf_distinct; [reflexivity|].
  apply (bool_decide_unpack _). reflexivity.
Qed.

End Dependencies.

(** ** Two runs on the same document *)

Section TwoRuns.
Context `{External}.

Lemma sameTemplate_refl (t : Template) : sameTemplate t t.
Proof.
  unfold sameTemplate. repeat split. by destruct (Template_DAG t).
Qed.

Lemma sameTemplates_refl (ts : list Template) : Forall2 sameTemplate ts ts.
Proof. induction ts; constructor; auto using sameTemplate_refl. Qed.

Lemma sameDocument_refl (d : wfv1.Workflow) : sameDocument d d.
Proof.
  unfold sameDocument. repeat split.
  exists (WorkflowSpec_Templates (Spec d)). split; [done|].
  apply sameTemplates_refl.
Qed.

Lemma sameTemplate_mainDAG (tasks tasks' : list DAGTask) :
  tasks ≡ₚ tasks' → sameTemplate (mainDAG tasks) (mainDAG tasks').
Proof. intros Hp. unfold sameTemplate. simpl. by repeat split. Qed.

(** C6, as the code has it: when the sanitized job ids are distinct, two
    runs that visit the jobs of the same document in different orders
    give the same document up to the order of the templates and of the
    tasks of the DAG. *)
Theorem translation_stable (name : string) (jobs jobs' : list (string * Job)) :
  jobs ≡ₚ jobs' →
  NoDup (map (λ kv, sanitizeName kv.1) jobs) →
  sameDocument
    (convertWorkflow {| Workflow_Name := name; Workflow_Jobs := jobs |})
    (convertWorkflow {| Workflow_Name := name; Workflow_Jobs := jobs' |}).
Proof.
  intros Hperm Hnd.
  destruct (decide (length jobs = 1)) as [Hlen|Hlen].
  - destruct jobs as [|kv [|? ?]]; try done.
    apply Permutation_singleton_l in Hperm as ->. apply sameDocument_refl.
  - assert (length jobs' ≠ 1) as Hlen' by by rewrite <- Hperm.
    assert (NoDup (map templateNameOf jobs')) as Hnd'.
    { by rewrite <- Hperm. }
    unfold sameDocument. repeat split.
    + by rewrite !convertWorkflow_multi.
    + by rewrite !convertWorkflow_multi.
    + rewrite !convertWorkflow_multi by done. cbn [WorkflowSpec_Templates].
      exists (flat_map templatesOfJob jobs' ++ [mainDAG (dagTasksOf jobs)]).
      split.
      * apply Permutation_app_tail. by apply Permutation_flat_map.
      * apply Forall2_app; [apply sameTemplates_refl|].
        constructor; [|constructor]. apply sameTemplate_mainDAG.
        rewrite !dagTasksOf_distinct by done. by apply Permutation_map.
Qed.

(** When the last templates of two documents are their only DAGs and
    the documents are the same up to order, so are the tasks. *)
Lemma sameDocument_tasks (d d' : wfv1.Workflow) (ts ts' : list Template)
    (tasks tasks' : list DAGTask) :
  WorkflowSpec_Templates (Spec d) = ts ++ [mainDAG tasks] →
  WorkflowSpec_Templates (Spec d') = ts' ++ [mainDAG tasks'] →
  List.filter isDAGTemplate ts = [] →
  sameDocument d d' →
  tasks ≡ₚ tasks'.
Proof.
  intros E E' Hts (_ & _ & _ & _ & _ & us & Hperm & Hall).
  rewrite E in Hperm. rewrite E' in Hall.
  apply Forall2_app_inv_r in Hall as (us1 & us2 & _ & Hlast & ->).
  inversion Hlast as [|u ? ? ? Hu Hnil]; subst. inversion Hnil; subst.
  assert (u ∈ ts ++ [mainDAG tasks]) as Hin.
  { rewrite Hperm. apply elem_of_app. right. apply list_elem_of_here. }
  destruct Hu as (_ & _ & _ & Hdag). simpl in Hdag.
  apply elem_of_app in Hin as [Hin|Hin%list_elem_of_singleton].
  - exfalso. destruct (Template_DAG u) as [dag|] eqn:Hd; [|done].
    assert (In u (List.filter isDAGTemplate ts)) as Hf.
    { apply filter_In. split; [by apply list_elem_of_In|].
      unfold isDAGTemplate. rewrite Hd. by apply bool_decide_eq_true_2. }
    by rewrite Hts in Hf.
  - by subst u.
Qed.

End TwoRuns.

(** The jobs [a] and [A] share the template name [a]: both tasks get
    the [needs] of the job visited last. *)
Lemma clash_tasks (E : External) :
  dagTasksOf clashJobs =
    [ {| DAGTask_Name := "a"; DAGTask_Template := "a";
         DAGTask_Dependencies := ["a"] |};
      {| DAGTask_Name := "a"; DAGTask_Template := "a";
         DAGTask_Dependencies := ["a"] |} ] ∧
  dagTasksOf clashJobs' =
    [ {| DAGTask_Name := "a"; DAGTask_Template := "a";
         DAGTask_Dependencies := [] |};
      {| DAGTask_Name := "a"; DAGTask_Template := "a";
         DAGTask_Dependencies := [] |} ].
Proof. split; reflexivity. Qed.

(** C6 fails as stated: the document with the jobs [a] and [A] gives,
    in the two orders of visit, DAGs whose tasks depend on ["a"] in one
    and on nothing in the other. *)
Lemma translation_order_dependent :
  ¬ (∀ (E : External) (name : string) (jobs jobs' : list (string * Job)),
       jobs ≡ₚ jobs' →
       NoDup (map fst jobs) →
       sameDocument
         (convertWorkflow {| Workflow_Name := name; Workflow_Jobs := jobs |})
         (convertWorkflow {| Workflow_Name := name; Workflow_Jobs := jobs' |})).
Proof.
  intros Hall. pose (E := asciiExternal).
  specialize (Hall E "x" clashJobs clashJobs').
  assert (clashJobs ≡ₚ clashJobs') as Hperm by apply perm_swap.
  assert (NoDup (map fst clashJobs)) as Hnd
    by (apply (bool_decide_unpack _); reflexivity).
  specialize (Hall Hperm Hnd).
  apply (sameDocument_tasks _ _
           (flat_map templatesOfJob clashJobs)
           (flat_map templatesOfJob clashJobs')
           (dagTasksOf clashJobs) (dagTasksOf clashJobs')) in Hall.
  2: { by rewrite convertWorkflow_multi by (simpl; lia). }
  2: { by rewrite convertWorkflow_multi by (simpl; lia). }
  2: { apply jobs_no_DAG. }
  destruct (clash_tasks E) as [E1 E2].
  assert ({| DAGTask_Name := "a"; DAGTask_Template := "a";
             DAGTask_Dependencies := ["a"] |} ∈ dagTasksOf clashJobs') as Hin.
  { rewrite <- Hall, E1. apply list_elem_of_here. }
  rewrite E2 in Hin.
  repeat (apply elem_of_cons in Hin as [Hin|Hin]; [discriminate Hin|]).
  by apply elem_of_nil in Hin.
Qed.

Lemma translation_stable_witness :
  sameDocument
    (@convertWorkflow asciiExternal
       {| Workflow_Name := "AB"; Workflow_Jobs := [("A", jobA); ("B", jobB)] |})
    (@convertWorkflow asciiExternal
       {| Workflow_Name := "AB"; Workflow_Jobs := [("B", jobB); ("A", jobA)] |}).
Proof.
  apply (@translation_stable asciiExternal).
  - apply perm_swap.
  - apply (bool_decide_unpack _). reflexivity.
Defined.

(** ** The queue at capacity *)

Section Backpressure.
Context `{External}.

Lemma handleConvert_full (s : Server) (r : Request) (body uuid : string) :
  MaxQueue ≤ length (JobQueue s) →
  Method r = "POST" →
  Body r = Some body →
  body ≠ "" →
  handleConvert r uuid s = (ServiceUnavailable "Server busy, queue is full", s).
Proof.
  intros Hfull Hm Hb Hne. unfold handleConvert.
  rewrite decide_False by (by rewrite Hm; intros ?). rewrite Hb.
  rewrite decide_False by (by destruct body).
  by rewrite decide_False by lia.
Qed.

(** Whatever the request, [handleConvert] leaves the store and the
    workers alone, and a job it adds carries the identifier drawn. *)
Lemma handleConvert_state (s : Server) (r : Request) (uuid : string) :
  let s' := (handleConvert r uuid s).2 in
  ResultStore s' = ResultStore s ∧ Running s' = Running s ∧
  (JobQueue s' = JobQueue s ∨
   ∃ body, JobQueue s' = JobQueue s ++ [{| JobID := uuid; GhaYAML := body |}]).
Proof.
  unfold handleConvert.
  repeat (case_decide || case_match); simpl; eauto.
Qed.

Lemma step_unusedID (id : string) (s : Server) (e : Event) :
  unusedID id s →
  (∀ r uuid, e = Convert r uuid → uuid ≠ id) →
  unusedID id (step s e).
Proof.
  intros Hun Hfresh. pose proof Hun as (Hq & Hr & Hs).
  destruct e as [r uuid| |w|w]; simpl.
  - destruct (handleConvert_state s r uuid) as (Hst & Hrun & Hqueue).
    unfold unusedID. rewrite Hst, Hrun. split; [|done].
    destruct Hqueue as [->|[body ->]]; [done|]. rewrite map_app. simpl.
    intros [?|Hin%list_elem_of_singleton]%elem_of_app; [done|].
    by apply (Hfresh r uuid).
  - done.
  - destruct (Running s !! w) eqn:Hw; [done|].
    destruct (JobQueue s) as [|job rest] eqn:Hjq; [done|].
    case_decide; [|done]. simpl in Hq.
    apply not_elem_of_cons in Hq as [Hjob Hrest].
    split; [done|]. split; [|done]. simpl.
    intros w' job'. rewrite lookup_insert. case_decide.
    + intros [= <-]. congruence.
    + apply Hr.
  - destruct (Running s !! w) as [job|] eqn:Hw; [|done].
    split; [done|]. simpl. split.
    + intros w' job'. rewrite lookup_delete. case_decide; [done|apply Hr].
    + rewrite lookup_insert_ne; [done|]. by apply (Hr w).
Qed.

Lemma run_unusedID (id : string) (events : list Event) (s : Server) :
  unusedID id s →
  neverDrawn id events →
  unusedID id (run s events).
Proof.
  revert s. induction events as [|e events IH]; intros s Hs Hnever; [done|].
  simpl. apply IH.
  - apply step_unusedID; [done|]. intros r uuid ->.
    apply (Hnever r uuid), list_elem_of_here.
  - intros r uuid Hin. apply (Hnever r uuid). by apply list_elem_of_further.
Qed.

(** C7: a request that finds [MaxQueue] jobs in the queue is answered
    503 at once; the queue, the store and the workers are as before;
    and, the identifier drawn for it being new and never drawn again,
    no later state of the server stores a result under it.  The
    synchronous handler answers 503 in the same way, without waiting on
    the channel of the request. *)
Theorem queue_full_rejected (s : Server) (r : Request) (body uuid : string) :
  length (JobQueue s) = MaxQueue →
  Method r = "POST" →
  Body r = Some body →
  body ≠ "" →
  uuid ≠ "" →
  unusedID uuid s →
  handleConvert r uuid s = (ServiceUnavailable "Server busy, queue is full", s) ∧
  StatusCode (handleConvert r uuid s).1 = 503 ∧
  (∀ events, neverDrawn uuid events →
     let s' := run (handleConvert r uuid s).2 events in
     ResultStore s' !! uuid = None ∧
     handleGetResult (pollRequest uuid) s' = NotFound) ∧
  (∀ (queue : list Sync.ConversionJob) (resultChan : nat),
     length queue = Sync.MaxQueue →
     ∃ msg, Sync.handleConversion r resultChan queue
            = (Sync.Respond (ServiceUnavailable msg), queue)).
Proof.
  intros Hfull Hm Hb Hne Hid Hunused.
  rewrite (handleConvert_full s r body uuid) by (done || lia).
  split; [done|]. split; [done|]. split.
  - intros events Hnever. cbn [snd].
    destruct (run_unusedID uuid events s Hunused Hnever) as (_ & _ & Hstore).
    split; [done|].
    unfold handleGetResult, pollRequest. cbn [Method Path].
    rewrite decide_False by (by intros ?). rewrite TrimPrefix_app.
    rewrite decide_False by done. by rewrite Hstore.
  - intros queue resultChan Hlen. unfold Sync.handleConversion.
    rewrite decide_False by (by rewrite Hm; intros ?). rewrite Hb.
    rewrite decide_False by (by destruct body).
    rewrite decide_False by lia. eauto.
Qed.

End Backpressure.

Lemma fullServer_unused : @unusedID "fresh" fullServer.
Proof.
  split; [|split].
  - apply (bool_decide_unpack _). vm_compute. reflexivity.
  - intros w job. simpl. by rewrite lookup_empty.
  - reflexivity.
Defined.

Lemma queue_full_rejected_witness :
  @handleConvert postRequest "fresh" fullServer
    = (ServiceUnavailable "Server busy, queue is full", fullServer) ∧
  StatusCode (handleConvert postRequest "fresh" fullServer).1 = 503 ∧
  (∀ events, neverDrawn "fresh" events →
     let s' := @run asciiExternal
                 (handleConvert postRequest "fresh" fullServer).2 events in
     ResultStore s' !! "fresh" = None ∧
     handleGetResult (pollRequest "fresh") s' = NotFound) ∧
  (∀ (queue : list Sync.ConversionJob) (resultChan : nat),
     length queue = Sync.MaxQueue →
     ∃ msg, Sync.handleConversion postRequest resultChan queue
            = (Sync.Respond (ServiceUnavailable msg), queue)).
Proof.
  apply (@queue_full_rejected asciiExternal fullServer postRequest "jobs: {}"
           "fresh").
  - reflexivity.
  - reflexivity.
  - reflexivity.
  - discriminate.
  - discriminate.
  - exact fullServer_unused.
Defined.

(** * Further properties *)

(** ** The sanitizer on labels and on letter case *)

Lemma lowerByte_plain (c : ascii) :
  isASCIIByte c = true →
  isASCIIByte (lowerByte c) = true ∧ isUpperByte (lowerByte c) = false ∧
  (isUpperByte c = false → lowerByte c = c).
Proof.
  destruct c as [[] [] [] [] [] [] [] []]; vm_compute; intuition congruence.
Qed.

Section SanitizerMore.
Context `{External}.

Lemma ToLower_ascii (s : list ascii) :
  forallb isASCIIByte s = true → ToLower s = map lowerByte s.
Proof.
  intros Hs. unfold ToLower. rewrite Hs.
  destruct (existsb isUpperByte s) eqn:Hup; [done|]. simpl.
  induction s as [|c s IH]; [done|]. simpl in *.
  apply andb_true_iff in Hs as [Hc Hs].
  apply orb_false_iff in Hup as [Hu Hup].
  destruct (lowerByte_plain c Hc) as (_ & _ & Hid).
  rewrite (Hid Hu). by rewrite <- IH.
Qed.

Lemma lowered_ascii (s : list ascii) :
  forallb isASCIIByte s = true →
  forallb isASCIIByte (map lowerByte s) = true ∧
  map lowerByte (map lowerByte s) = map lowerByte s.
Proof.
  induction s as [|c s IH]; [done|]. simpl.
  intros [Hc Hs]%andb_true_iff. destruct (IH Hs) as [-> ->].
  destruct (lowerByte_plain c Hc) as (Ha & Hu & _).
  destruct (lowerByte_plain _ Ha) as (_ & _ & Hid).
  by rewrite (Hid Hu), Ha.
Qed.

Lemma sanitizeName_asciiLower (x : string) :
  isASCII x = true → sanitizeName (asciiLower x) = sanitizeName x.
Proof.
  unfold isASCII, asciiLower, sanitizeName. intros Hx. rewrite bytes_str.
  destruct (bytes x) as [|c s] eqn:E; [done|]. rewrite <- E in *. f_equal.
  destruct (lowered_ascii _ Hx) as [Hl Hll].
  assert (sanitizeBytes (map lowerByte (bytes x))
          = if 63 <? length (trimmed (map lowerByte (bytes x)))
            then take 63 (trimmed (map lowerByte (bytes x)))
            else trimmed (map lowerByte (bytes x))) as ->
    by (rewrite E; reflexivity).
  assert (sanitizeBytes (bytes x)
          = if 63 <? length (trimmed (bytes x))
            then take 63 (trimmed (bytes x)) else trimmed (bytes x)) as ->
    by (rewrite E; reflexivity).
  unfold trimmed. by rewrite !ToLower_ascii, Hll.
Qed.

(** X2: Two ASCII names that differ only in the case of their letters get
    the same sanitized name. *)
Theorem sanitizeName_ignores_case (x y : string) :
  isASCII x = true →
  isASCII y = true →
  asciiLower x = asciiLower y →
  sanitizeName x = sanitizeName y.
Proof.
  intros Hx Hy E.
  by rewrite <- (sanitizeName_asciiLower x), <- (sanitizeName_asciiLower y), E.
Qed.

(** X1: A DNS-1123 label written in [a-z0-9-] is its own sanitized name. *)
Theorem sanitizeName_keeps_labels (y : string) :
  isDNSLabel y = true → sanitizeName y = y.
Proof.
  unfold isDNSLabel, isLabel, startsWithDash, endsWithDash.
  intros Hy.
  apply andb_true_iff in Hy as [Hy Hlast].
  apply andb_true_iff in Hy as [Hy Hhead].
  apply andb_true_iff in Hy as [Hy Hne].
  apply andb_true_iff in Hy as [Hsafe Hlen].
  apply negb_true_iff in Hlast, Hhead, Hne.
  apply bool_decide_eq_false in Hne.
  apply Nat.leb_le in Hlen. rewrite <- length_bytes in Hlen.
  unfold sanitizeName. rewrite <- (str_bytes y) at 2. f_equal.
  apply sanitizeBytes_fixpoint.
  - by rewrite bytes_nil.
  - done.
  - done.
  - by destruct (bytes y).
  - by destruct (rev (bytes y)).
Qed.

(** X3: The sanitized name never starts with a dash, and it ends with one
    only when the truncation cut it at 63 bytes. *)
Theorem sanitizeName_edges (x : string) :
  startsWithDash (sanitizeName x) = false ∧
  (endsWithDash (sanitizeName x) = true →
   String.length (sanitizeName x) = 63).
Proof.
  unfold startsWithDash, sanitizeName. rewrite endsWithDash_str, bytes_str.
  rewrite <- length_bytes, bytes_str. split.
  - pose proof (sanitizeBytes_head (bytes x)) as Hh.
    by destruct (sanitizeBytes (bytes x)).
  - destruct (bytes x) as [|c s]; [done|]. rewrite sanitizeBytes_cons.
    pose proof (trimEdgeDash_last (replaceNonDNSSafe false (ToLower (c :: s))))
      as Hl. fold (trimmed (c :: s)) in Hl.
    destruct (63 <? length (trimmed (c :: s))) eqn:Hlen.
    + intros _. apply Nat.ltb_lt in Hlen. rewrite length_take. lia.
    + destruct (rev (trimmed (c :: s))); [done|]. congruence.
Qed.

End SanitizerMore.

Lemma sanitizeName_ignores_case_witness :
  @sanitizeName asciiExternal "Build_App" = @sanitizeName asciiExternal "build_app".
Proof.
  apply (@sanitizeName_ignores_case asciiExternal "Build_App" "build_app").
  - reflexivity.
  - reflexivity.
  - reflexivity.
Defined.

Lemma sanitizeName_keeps_labels_witness :
  @sanitizeName asciiExternal "build-app-2" = "build-app-2".
Proof.
  apply (@sanitizeName_keeps_labels asciiExternal "build-app-2").
  reflexivity.
Defined.

(** ** Counting steps and templates *)

Section Counting.
Context `{External}.

Lemma stepScript_runnable (baseImage : string) (ghaStep : Step) :
  is_Some (stepScript baseImage ghaStep) ↔ isSkipped ghaStep = false.
Proof.
  pose proof (stepScript_skipped baseImage ghaStep) as Hs.
  destruct (stepScript baseImage ghaStep), (isSkipped ghaStep);
    split; intros Hx; try done.
  - destruct Hs as [Hs _]. by specialize (Hs eq_refl).
  - destruct Hs as [_ Hs]. by specialize (Hs eq_refl).
Qed.

Lemma convertSteps_lengths (jobTemplateName : string) (runsOn : list string)
    (steps : list Step) (i : nat)
    (jobSteps : list ParallelSteps) (stepTemplates : list Template) :
  length (convertSteps jobTemplateName runsOn i steps jobSteps stepTemplates).1
    = length jobSteps + length steps ∧
  length (convertSteps jobTemplateName runsOn i steps jobSteps stepTemplates).2
    = length stepTemplates + length (runnable steps).
Proof.
  revert i jobSteps stepTemplates.
  induction steps as [|ghaStep rest IH]; intros i jobSteps stepTemplates.
  - simpl. lia.
  - cbn [convertSteps]. unfold runnable. cbn [List.filter].
    pose proof (stepScript_runnable (baseImageOf runsOn) ghaStep) as Hrun.
    destruct (stepScript (baseImageOf runsOn) ghaStep) as [script|].
    + destruct Hrun as [Hrun _]. rewrite Hrun by by eexists.
      cbn [negb length].
      edestruct IH as [-> ->]. rewrite !length_app. unfold runnable.
      simpl. lia.
    + destruct (isSkipped ghaStep) eqn:Hs.
      * cbn [negb]. edestruct IH as [-> ->]. rewrite !length_app.
        unfold runnable. simpl. lia.
      * destruct Hrun as [_ Hrun]. by destruct (Hrun eq_refl).
Qed.

(** X5: The loop over the steps of a job makes one reference per step,
    skipped or not, and one script template per step that is not
    skipped.  The reference of a skipped step stands at the index of the
    step, and the template it names is among the templates of the loop
    exactly when a step of the job that is not skipped has the same
    step name: otherwise the reference names a template that the loop
    does not make. *)
Theorem step_loop_counts (jobTemplateName : string) (runsOn : list string)
    (steps : list Step) :
  let out := convertSteps jobTemplateName runsOn 0 steps [] [] in
  length out.1 = length steps ∧
  length out.2 = length (runnable steps) ∧
  length out.1 - length out.2
    = length (List.filter isSkipped steps) ∧
  (∀ i ghaStep,
     steps !! i = Some ghaStep →
     isSkipped ghaStep = true →
     out.1 !! i =
       Some [{| WorkflowStep_Name := stepNameAt i ghaStep;
                WorkflowStep_Template :=
                  jobTemplateName +:+ "-" +:+ stepNameAt i ghaStep |}] ∧
     (jobTemplateName +:+ "-" +:+ stepNameAt i ghaStep
        ∈ (Template_Name <$> out.2) ↔
      ∃ j other,
        steps !! j = Some other ∧ isSkipped other = false ∧
        stepNameAt j other = stepNameAt i ghaStep)).
Proof.
  cbn zeta.
  destruct (convertSteps_lengths jobTemplateName runsOn steps 0 [] [])
    as [-> ->].
  split; [done|]. split; [done|]. split.
  { unfold runnable. clear.
    induction steps as [|s steps IH]; [done|]. simpl.
    assert (length (List.filter (λ ghaStep, negb (isSkipped ghaStep)) steps)
            ≤ length steps) as Hle.
    { clear. induction steps as [|s steps IH]; [done|].
      simpl. destruct (negb (isSkipped s)); simpl; lia. }
    destruct (isSkipped s); simpl in *; lia. }
  intros i ghaStep Hi Hskip. rewrite convertSteps_from. cbn [fst snd app].
  split.
  { rewrite list_lookup_imap, Hi. reflexivity. }
  rewrite list_elem_of_fmap. split.
  - intros (t & Hname & Ht). apply list_elem_of_omap in Ht as (o & Ho & Hid).
    apply elem_of_lookup_imap in Ho as (j & other & -> & Hj).
    cbn [id Nat.add] in Hid.
    pose proof (stepTemplateAt_Some _ _ _ _ _ Hid) as (_ & _ & Hn & Hs).
    exists j, other. split; [done|]. split.
    + destruct (isSkipped other) eqn:Ho; [|done].
      apply (stepScript_skipped (baseImageOf runsOn)) in Ho.
      unfold stepTemplateAt in Hid. by rewrite Ho in Hid.
    + rewrite Hn in Hname. by do 2 apply (inj _) in Hname.
  - intros (j & other & Hj & Ho & Hname).
    destruct (stepScript (baseImageOf runsOn) other) as [script|] eqn:Hs.
    + exists {| Template_Name := jobTemplateName +:+ "-" +:+ stepNameAt j other;
                Template_Steps := None;
                Template_Script := Some script;
                Template_DAG := None |}.
      split; [by rewrite Hname|].
      apply list_elem_of_omap. eexists. split.
      * apply elem_of_lookup_imap. exists j, other. split; [done|exact Hj].
      * cbn [id Nat.add]. unfold stepTemplateAt. by rewrite Hs.
    + apply stepScript_skipped in Hs. congruence.
Qed.

Lemma stepTemplatesOf_length (jobName : string) (ghaJob : Job) :
  length (stepTemplatesOf jobName ghaJob) = length (runnable (Job_Steps ghaJob)).
Proof.
  destruct (convertSteps_lengths (sanitizeName jobName) (Job_RunsOn ghaJob)
              (Job_Steps ghaJob) 0 [] []) as [_ Hlen].
  rewrite convertSteps_from in Hlen. simpl in Hlen. exact Hlen.
Qed.

(** X6: The document holds one template per job, one per step that is not
    skipped, and the DAG template unless there is exactly one job. *)
Theorem template_count (wf : model.Workflow) :
  length (WorkflowSpec_Templates (Spec (convertWorkflow wf))) =
    length (Workflow_Jobs wf)
    + sum_list (map (λ kv, length (runnable (Job_Steps kv.2))) (Workflow_Jobs wf))
    + (if decide (length (Workflow_Jobs wf) = 1) then 0 else 1).
Proof.
  destruct wf as [name jobs]. cbn [Workflow_Jobs].
  assert (length (flat_map templatesOfJob jobs) =
          length jobs + sum_list (map (λ kv, length (runnable (Job_Steps kv.2))) jobs))
    as Hjobs.
  { induction jobs as [|kv jobs IH]; [done|]. cbn [flat_map map sum_list].
    rewrite length_app, IH. unfold templatesOfJob at 1. cbn [length].
    rewrite stepTemplatesOf_length. simpl. lia. }
  destruct (decide (length jobs = 1)) as [Hlen|Hlen].
  - destruct jobs as [|kv [|? ?]]; try done. rewrite convertWorkflow_single.
    cbn [WorkflowSpec_Templates]. cbn [flat_map] in Hjobs.
    rewrite app_nil_r in Hjobs. rewrite Hjobs. lia.
  - rewrite convertWorkflow_multi by done. cbn [WorkflowSpec_Templates].
    rewrite length_app, Hjobs. simpl. lia.
Qed.

End Counting.

Lemma step_loop_counts_witness :
  (@convertSteps asciiExternal "test" ["ubuntu-latest"] 0
     [checkoutStep; emptyStep; testStep] [] []).1 !! 1
    = Some [{| WorkflowStep_Name := "nothing";
               WorkflowStep_Template := "test-nothing" |}] ∧
  "test-nothing"
    ∉ (Template_Name <$>
         (@convertSteps asciiExternal "test" ["ubuntu-latest"] 0
            [checkoutStep; emptyStep; testStep] [] []).2).
Proof.
  destruct (@step_loop_counts asciiExternal "test" ["ubuntu-latest"]
              [checkoutStep; emptyStep; testStep])
    as (_ & _ & _ & Hskipped).
  destruct (Hskipped 1 emptyStep eq_refl eq_refl) as [Href Hiff].
  split; [exact Href|].
  intros Hin. apply Hiff in Hin as (j & other & Hj & Ho & Hname).
  destruct j as [|[|[|j]]]; simplify_eq/=; done.
Defined.

(** ** References inside the document *)

Section References.
Context `{External}.

Lemma job_templates_DAG_None (jobs : list (string * Job)) (t : Template) :
  t ∈ flat_map templatesOfJob jobs → Template_DAG t = None.
Proof.
  intros Hin. destruct (Template_DAG t) as [dag|] eqn:Hd; [|done].
  assert (In t (List.filter isDAGTemplate (flat_map templatesOfJob jobs))) as Hf.
  { apply filter_In. split; [by apply list_elem_of_In|].
    unfold isDAGTemplate. rewrite Hd. by apply bool_decide_eq_true_2. }
  by rewrite jobs_no_DAG in Hf.
Qed.

Lemma dag_template_in_document (wf : model.Workflow) (t : Template)
    (dag : DAGTemplate) :
  t ∈ WorkflowSpec_Templates (Spec (convertWorkflow wf)) →
  Template_DAG t = Some dag →
  length (Workflow_Jobs wf) ≠ 1 ∧
  DAGTemplate_Tasks dag = dagTasksOf (Workflow_Jobs wf).
Proof.
  destruct wf as [name jobs]. cbn [Workflow_Jobs]. intros Hin Hdag.
  destruct (decide (length jobs = 1)) as [Hlen|Hlen].
  - destruct jobs as [|kv [|? ?]]; try done.
    rewrite convertWorkflow_single in Hin. cbn [WorkflowSpec_Templates] in Hin.
    assert (t ∈ flat_map templatesOfJob [kv]) as Hin'
      by (simpl; by rewrite app_nil_r).
    apply job_templates_DAG_None in Hin'. congruence.
  - split; [done|]. rewrite convertWorkflow_multi in Hin by done.
    cbn [WorkflowSpec_Templates] in Hin.
    apply elem_of_app in Hin as [Hin|Hin%list_elem_of_singleton].
    + apply job_templates_DAG_None in Hin. congruence.
    + subst t. simpl in Hdag. by injection Hdag as <-.
Qed.

Lemma job_template_in_document (wf : model.Workflow) (kv : string * Job) :
  kv ∈ Workflow_Jobs wf →
  jobTemplateOf kv.1 kv.2 ∈ WorkflowSpec_Templates (Spec (convertWorkflow wf)).
Proof.
  intros Hin. destruct (templates_of_job wf kv Hin) as (before & after & ->).
  apply elem_of_app. right. apply elem_of_app. left. apply list_elem_of_here.
Qed.

(** X7: The entrypoint of the document is always the name of one of its
    templates, whatever the number of jobs. *)
Theorem entrypoint_is_template (wf : model.Workflow) :
  ∃ t, t ∈ WorkflowSpec_Templates (Spec (convertWorkflow wf)) ∧
       Template_Name t = WorkflowSpec_Entrypoint (Spec (convertWorkflow wf)).
Proof.
  destruct wf as [name jobs].
  destruct (decide (length jobs = 1)) as [Hlen|Hlen].
  - destruct jobs as [|kv [|? ?]]; try done.
    exists (jobTemplateOf kv.1 kv.2). split.
    + apply (job_template_in_document
               {| Workflow_Name := name; Workflow_Jobs := [kv] |}).
      apply list_elem_of_here.
    + by rewrite convertWorkflow_single.
  - rewrite convertWorkflow_multi by done.
    exists (mainDAG (dagTasksOf jobs)). split; [|done].
    apply elem_of_app. right. apply list_elem_of_here.
Qed.

(** X8: Every task of the DAG refers, under its own name, to the steps
    template of a job: no task refers to a template that is missing. *)
Theorem dag_tasks_resolve (wf : model.Workflow) (t : Template)
    (dag : DAGTemplate) (task : DAGTask) :
  t ∈ WorkflowSpec_Templates (Spec (convertWorkflow wf)) →
  Template_DAG t = Some dag →
  task ∈ DAGTemplate_Tasks dag →
  DAGTask_Template task = DAGTask_Name task ∧
  ∃ jobTemplate,
    jobTemplate ∈ WorkflowSpec_Templates (Spec (convertWorkflow wf)) ∧
    Template_Name jobTemplate = DAGTask_Template task ∧
    isStepsTemplate jobTemplate = true.
Proof.
  intros Hin Hdag Htask.
  destruct (dag_template_in_document wf t dag Hin Hdag) as [_ Htasks].
  rewrite Htasks in Htask. unfold dagTasksOf in Htask.
  apply list_elem_of_fmap in Htask as (n & -> & Hn).
  apply list_elem_of_fmap in Hn as (kv & -> & Hkv).
  split; [done|]. exists (jobTemplateOf kv.1 kv.2).
  split; [by apply job_template_in_document|]. by split.
Qed.

(** X9: The template of a [run] step runs [bash -c] on the text of the step,
    unchanged. *)
Theorem run_step_script (wf : model.Workflow) (jobName : string)
    (ghaJob : Job) (i : nat) (ghaStep : Step) :
  (jobName, ghaJob) ∈ Workflow_Jobs wf →
  Job_Steps ghaJob !! i = Some ghaStep →
  Step_Run ghaStep ≠ "" →
  {| Template_Name := sanitizeName jobName +:+ "-" +:+ stepNameAt i ghaStep;
     Template_Steps := None;
     Template_Script :=
       Some {| ScriptTemplate_Container :=
                 {| Container_Image := baseImageOf (Job_RunsOn ghaJob);
                    Container_Command := ["bash"; "-c"] |};
               ScriptTemplate_Source := Step_Run ghaStep |};
     Template_DAG := None |}
    ∈ WorkflowSpec_Templates (Spec (convertWorkflow wf)).
Proof.
  intros Hjob Hi Hrun.
  eapply step_template_in_document; [done..|].
  unfold stepTemplateAt. rewrite stepScript_run; [done|].
  by apply bool_decide_eq_true_2.
Qed.

(** X10: When several jobs have the same template name, every task of that
    name carries the [needs] of the job visited last among them. *)
Theorem dependencies_last_wins (name : string)
    (before after : list (string * Job)) (kv : string * Job)
    (t : Template) (dag : DAGTemplate) (task : DAGTask) :
  sanitizeName kv.1 ∉ map (λ kv', sanitizeName kv'.1) after →
  t ∈ WorkflowSpec_Templates
        (Spec (convertWorkflow
                 {| Workflow_Name := name;
                    Workflow_Jobs := before ++ kv :: after |})) →
  Template_DAG t = Some dag →
  task ∈ DAGTemplate_Tasks dag →
  DAGTask_Name task = sanitizeName kv.1 →
  DAGTask_Dependencies task = Job_Needs kv.2.
Proof.
  intros Hlast Hin Hdag Htask Hname.
  destruct (dag_template_in_document _ t dag Hin Hdag) as [_ Htasks].
  cbn [Workflow_Jobs] in Htasks. rewrite Htasks in Htask.
  unfold dagTasksOf in Htask.
  apply list_elem_of_fmap in Htask as (n & -> & Hn).
  simpl in Hname. subst n.
  pose proof (dagTaskOf_lookup _ _ _
                (jobDependencies_last before after kv Hlast)) as E.
  unfold templateNameOf in E. by rewrite E.
Qed.

End References.

Lemma dag_tasks_resolve_witness :
  ∃ jobTemplate,
    jobTemplate ∈ WorkflowSpec_Templates
                    (Spec (@convertWorkflow asciiExternal needsWorkflow)) ∧
    Template_Name jobTemplate = "b" ∧
    isStepsTemplate jobTemplate = true.
Proof.
  destruct (@dag_tasks_resolve asciiExternal needsWorkflow
              (mainDAG (@dagTasksOf asciiExternal (Workflow_Jobs needsWorkflow)))
              {| DAGTemplate_Tasks :=
                   @dagTasksOf asciiExternal (Workflow_Jobs needsWorkflow) |}
              {| DAGTask_Name := "b"; DAGTask_Template := "b";
                 DAGTask_Dependencies := ["A"] |}) as [_ Hw].
  - vm_compute. apply list_elem_of_further, list_elem_of_further,
      list_elem_of_here.
  - reflexivity.
  - vm_compute. apply list_elem_of_further, list_elem_of_here.
  - exact Hw.
Defined.

Lemma run_step_script_witness :
  {| Template_Name := "test-run-tests";
     Template_Steps := None;
     Template_Script :=
       Some {| ScriptTemplate_Container :=
                 {| Container_Image := "ubuntu:22.04";
                    Container_Command := ["bash"; "-c"] |};
               ScriptTemplate_Source := "go test ./..." |};
     Template_DAG := None |}
    ∈ WorkflowSpec_Templates (Spec (@convertWorkflow asciiExternal ciWorkflow)).
Proof.
  apply (@run_step_script asciiExternal ciWorkflow "test" testJob 2 testStep).
  - apply list_elem_of_here.
  - reflexivity.
  - discriminate.
Defined.

Lemma dependencies_last_wins_witness :
  DAGTask_Dependencies
    {| DAGTask_Name := "a"; DAGTask_Template := "a";
       DAGTask_Dependencies := ["a"] |} = Job_Needs jobNeedsLower.
Proof.
  apply (@dependencies_last_wins asciiExternal "x" [("a", jobA)] []
           ("A", jobNeedsLower)
           (mainDAG (@dagTasksOf asciiExternal clashJobs))
           {| DAGTemplate_Tasks := @dagTasksOf asciiExternal clashJobs |}).
  - apply not_elem_of_nil.
  - vm_compute. apply list_elem_of_further, list_elem_of_further,
      list_elem_of_here.
  - reflexivity.
  - vm_compute. apply list_elem_of_here.
  - reflexivity.
Defined.

(** ** Steps without a name *)

Section UnnamedSteps.
Context `{External}.

Lemma omap_imap_two {A B} (f : nat → A → option B) (l : list A) (i j : nat)
    (a b : A) (x y : B) :
  i < j → l !! i = Some a → l !! j = Some b →
  f i a = Some x → f j b = Some y →
  ∃ l1 l2 l3, omap id (imap f l) = l1 ++ x :: l2 ++ y :: l3.
Proof.
  intros Hij Hi Hj Hx Hy.
  pose proof (take_drop_middle l i a Hi) as El.
  assert (drop (S i) l !! (j - S i) = Some b) as Hj'.
  { rewrite lookup_drop. by replace (S i + (j - S i)) with j by lia. }
  pose proof (take_drop_middle _ _ _ Hj') as Er.
  assert (length (take i l) = i) as Hli.
  { apply lookup_lt_Some in Hi. rewrite length_take. lia. }
  assert (length (take (j - S i) (drop (S i) l)) = j - S i) as Hlj.
  { apply lookup_lt_Some in Hj'. rewrite length_take. lia. }
  rewrite <- El, <- Er.
  rewrite imap_app, omap_app. cbn [imap]. rewrite Hli, Nat.add_0_r.
  cbn [omap list_omap id]. rewrite Hx.
  rewrite imap_app, omap_app. cbn [imap compose]. rewrite Hlj.
  replace (i + S (j - S i + 0)) with j by lia.
  cbn [omap list_omap id]. rewrite Hy. eauto.
Qed.

(** A step without a name is called [unnamed], whatever its index. *)
Lemma stepNameAt_unnamed (i : nat) (ghaStep : Step) :
  Step_Name ghaStep = "" → stepNameAt i ghaStep = "unnamed".
Proof. unfold stepNameAt. by intros ->. Qed.

(** X11: Two steps of a job that have no name and are not skipped get
    script templates of the same name: the names of the templates of
    the document are then not distinct. *)
Theorem unnamed_steps_collide (wf : model.Workflow) (jobName : string)
    (ghaJob : Job) (i j : nat) (step1 step2 : Step) :
  (jobName, ghaJob) ∈ Workflow_Jobs wf →
  i < j →
  Job_Steps ghaJob !! i = Some step1 →
  Job_Steps ghaJob !! j = Some step2 →
  Step_Name step1 = "" → Step_Name step2 = "" →
  isSkipped step1 = false → isSkipped step2 = false →
  ¬ NoDup (map Template_Name
             (WorkflowSpec_Templates (Spec (convertWorkflow wf)))).
Proof.
  intros Hjob Hij Hi Hj Hn1 Hn2 Hs1 Hs2 Hnd.
  destruct (templates_of_job wf _ Hjob) as (before & after & E).
  rewrite E in Hnd. unfold templatesOfJob, stepTemplatesOf in Hnd.
  cbn [fst snd] in Hnd.
  pose proof (stepScript_runnable (baseImageOf (Job_RunsOn ghaJob)) step1)
    as [_ [sc1 Hsc1]]; [done|].
  pose proof (stepScript_runnable (baseImageOf (Job_RunsOn ghaJob)) step2)
    as [_ [sc2 Hsc2]]; [done|].
  edestruct (omap_imap_two
               (stepTemplateAt (sanitizeName jobName) (Job_RunsOn ghaJob))
               (Job_Steps ghaJob) i j step1 step2) as (l1 & l2 & l3 & El);
    [done..| | |].
  { unfold stepTemplateAt. by rewrite Hsc1. }
  { unfold stepTemplateAt. by rewrite Hsc2. }
  rewrite El in Hnd. rewrite !stepNameAt_unnamed in Hnd by done.
  rewrite !map_app in Hnd. cbn [map] in Hnd. rewrite !map_app in Hnd.
  cbn [map Template_Name] in Hnd.
  apply NoDup_app in Hnd as (_ & _ & Hnd).
  apply NoDup_cons in Hnd as [_ Hnd].
  apply NoDup_app in Hnd as (Hnd & _ & _).
  apply NoDup_app in Hnd as (_ & _ & Hnd).
  apply NoDup_cons in Hnd as [Hnot _]. apply Hnot.
  rewrite map_app. apply elem_of_app. right. apply list_elem_of_here.
Qed.

End UnnamedSteps.

(** Two steps that only have [uses]. *)
Lemma unnamed_steps_collide_witness :
  ¬ NoDup (map Template_Name
             (WorkflowSpec_Templates
                (Spec (@convertWorkflow asciiExternal
                         {| Workflow_Name := "CI";
                            Workflow_Jobs :=
                              [("build",
                                {| Job_Steps := [checkoutStep; checkoutStep];
                                   Job_Needs := []; Job_RunsOn := [] |})] |})))).
Proof.
  apply (@unnamed_steps_collide asciiExternal _ "build"
           {| Job_Steps := [checkoutStep; checkoutStep];
              Job_Needs := []; Job_RunsOn := [] |} 0 1 checkoutStep checkoutStep).
  - apply list_elem_of_here.
  - lia.
  - reflexivity.
  - reflexivity.
  - reflexivity.
  - reflexivity.
  - reflexivity.
  - reflexivity.
Defined.

(** ** The pool: requests *)

Section PoolRequests.
Context `{External}.

(** X13: [handleConvert] changes the state only when it answers 202: a
    wrong method (405), an unreadable body (500) and an empty body (400)
    leave the queue, the store and the workers as they are. *)
Theorem handleConvert_rejections (r : Request) (uuid : string) (s : Server) :
  (StatusCode (handleConvert r uuid s).1 ≠ 202 →
     (handleConvert r uuid s).2 = s) ∧
  (Method r ≠ "POST" → StatusCode (handleConvert r uuid s).1 = 405) ∧
  (Method r = "POST" → Body r = None →
     StatusCode (handleConvert r uuid s).1 = 500) ∧
  (Method r = "POST" → Body r = Some "" →
     StatusCode (handleConvert r uuid s).1 = 400).
Proof.
  unfold handleConvert. repeat split.
  - repeat (case_decide || case_match); simpl; done.
  - intros Hm. by rewrite decide_True.
  - intros Hm ->. by rewrite decide_False by (by intros ?).
  - intros Hm ->. by rewrite decide_False by (by intros ?).
Qed.

Lemma handleConvert_room (r : Request) (body uuid : string) (s : Server) :
  Method r = "POST" →
  Body r = Some body →
  body ≠ "" →
  length (JobQueue s) < MaxQueue →
  handleConvert r uuid s =
    (Accepted uuid ("/result/" +:+ uuid),
     {| JobQueue := JobQueue s ++ [{| JobID := uuid; GhaYAML := body |}];
        ResultStore := ResultStore s;
        Running := Running s |}).
Proof.
  intros Hm Hb Hne Hlen. unfold handleConvert.
  rewrite decide_False by (by rewrite Hm; intros ?). rewrite Hb.
  rewrite decide_False by (by destruct body).
  by rewrite decide_True.
Qed.

(** X14: With room in the queue, a POST with a body is answered 202 with the
    identifier drawn and the address [/result/<id>], and its job goes
    to the end of the queue; the store and the workers are untouched. *)
Theorem handleConvert_accepts (r : Request) (body uuid : string) (s : Server) :
  Method r = "POST" →
  Body r = Some body →
  body ≠ "" →
  length (JobQueue s) < MaxQueue →
  (handleConvert r uuid s).1 = Accepted uuid ("/result/" +:+ uuid) ∧
  JobQueue (handleConvert r uuid s).2
    = JobQueue s ++ [{| JobID := uuid; GhaYAML := body |}] ∧
  ResultStore (handleConvert r uuid s).2 = ResultStore s ∧
  Running (handleConvert r uuid s).2 = Running s.
Proof.
  intros Hm Hb Hne Hlen.
  by rewrite (handleConvert_room r body uuid s).
Qed.

(** X15: [handleGetResult] answers 405 to a method other than GET and 400 to
    the bare path [/result/]; for [/result/<id>] it answers 404 when the
    store has no result under the identifier, 500 with the message of a
    stored failure, and 200 with the stored document otherwise. *)
Theorem handleGetResult_answers (s : Server) :
  (∀ r, Method r ≠ "GET" → StatusCode (handleGetResult r s) = 405) ∧
  (∀ body, handleGetResult
             {| Method := "GET"; Body := body; Path := "/result/" |} s
           = BadRequest "Job ID is missing") ∧
  (∀ jobID, jobID ≠ "" →
     handleGetResult (pollRequest jobID) s =
       match ResultStore s !! jobID with
       | None => NotFound
       | Some res => resultResponse res
       end).
Proof.
  repeat split.
  - intros r Hm. unfold handleGetResult. by rewrite decide_True.
  - intros jobID Hid. unfold handleGetResult, pollRequest, resultResponse.
    cbn [Method Path]. rewrite decide_False by (by intros ?).
    rewrite TrimPrefix_app. by rewrite decide_False.
Qed.

(** X16: The result a worker stores carries the identifier of the job; it
    holds a document exactly when the parser and the encoder both
    succeed, and an empty document beside every error. *)
Theorem processJob_result (job : ConversionJob) :
  Result_JobID (processJob job) = JobID job ∧
  (Error (processJob job) = None ↔
     ∃ ghaWF yamlBytes,
       ReadWorkflow (GhaYAML job) = inr ghaWF ∧
       Marshal (convertWorkflow ghaWF) = inr yamlBytes ∧
       ArgoYAML (processJob job) = yamlBytes) ∧
  (Error (processJob job) ≠ None → ArgoYAML (processJob job) = "").
Proof.
  unfold processJob, convertGHAtoArgo.
  destruct (ReadWorkflow (GhaYAML job)) as [err|ghaWF]; simpl.
  - repeat split; try done. by intros (? & ? & ? & _).
  - destruct (Marshal (convertWorkflow ghaWF)) as [err|yamlBytes] eqn:Hm;
      simpl.
    + repeat split; try done. intros (? & ? & [= <-] & Hm' & _). congruence.
    + repeat split; try done. intros _. eauto.
Qed.

End PoolRequests.

Lemma handleConvert_accepts_witness :
  (handleConvert postRequest "fresh" busyServer).1
    = Accepted "fresh" "/result/fresh" ∧
  JobQueue (handleConvert postRequest "fresh" busyServer).2
    = [queuedJob; {| JobID := "fresh"; GhaYAML := "jobs: {}" |}] ∧
  ResultStore (handleConvert postRequest "fresh" busyServer).2 = ∅ ∧
  Running (handleConvert postRequest "fresh" busyServer).2 = ∅.
Proof.
  apply (handleConvert_accepts postRequest "jobs: {}" "fresh" busyServer).
  - reflexivity.
  - reflexivity.
  - discriminate.
  - vm_compute. lia.
Defined.

(** ** The pool: invariants *)

Section PoolInvariants.
Context `{External}.

Lemma step_bounds (s : Server) (e : Event) :
  queueBounded s → workersInRange s →
  queueBounded (step s e) ∧ workersInRange (step s e).
Proof.
  unfold queueBounded, workersInRange. intros Hq Hw.
  destruct e as [r uuid| |w|w]; simpl.
  - destruct (handleConvert_state s r uuid) as (_ & -> & Hqueue).
    split; [|done]. unfold handleConvert in *.
    repeat (case_decide || case_match); simpl in *; try done.
    rewrite length_app. simpl. lia.
  - done.
  - destruct (Running s !! w) eqn:Hrw; [done|].
    destruct (JobQueue s) as [|job rest] eqn:Hjq; [by rewrite Hjq|].
    case_decide; [|by rewrite Hjq]. simpl in *. split; [lia|].
    intros w'. rewrite lookup_insert. case_decide; [by subst|apply Hw].
  - destruct (Running s !! w) eqn:Hrw; [|done]. simpl. split; [done|].
    intros w'. rewrite lookup_delete. case_decide; [by intros [? ?]|apply Hw].
Qed.

Lemma workers_size (s : Server) :
  workersInRange s → size (Running s) ≤ NumWorkers.
Proof.
  intros Hw. rewrite <- size_dom.
  assert (dom (Running s) ⊆ (list_to_set (seq 1 NumWorkers) : gset nat))
    as Hsub.
  { intros w Hin%elem_of_dom. apply elem_of_list_to_set, elem_of_seq.
    specialize (Hw w Hin). lia. }
  etrans; [by apply subseteq_size|].
  rewrite size_list_to_set by apply NoDup_seq. by rewrite length_seq.
Qed.

(** X17: The queue never holds more than [MaxQueue] jobs and the workers
    never hold more than [NumWorkers], whatever happens. *)
Theorem pool_bounds (s : Server) (events : list Event) :
  queueBounded s →
  workersInRange s →
  length (JobQueue (run s events)) ≤ MaxQueue ∧
  size (Running (run s events)) ≤ NumWorkers.
Proof.
  intros Hq Hw.
  cut (queueBounded (run s events) ∧ workersInRange (run s events)).
  { intros [? ?]. split; [done|]. by apply workers_size. }
  revert s Hq Hw. induction events as [|e events IH]; intros s Hq Hw; [done|].
  simpl. destruct (step_bounds s e Hq Hw). by apply IH.
Qed.

Lemma step_distinctIDs (s : Server) (e : Event) :
  distinctIDs s →
  match e with Convert _ uuid => unusedID uuid s | _ => True end →
  distinctIDs (step s e).
Proof.
  intros Hd Hfresh. pose proof Hd as (Hq & Hrq & Hrr & Hst).
  destruct e as [r uuid| |w|w]; simpl.
  - destruct (handleConvert_state s r uuid) as (Est & Erun & Equeue).
    destruct Hfresh as (Hu1 & Hu2 & Hu3).
    unfold distinctIDs, pendingJob. rewrite Est, Erun.
    destruct Equeue as [->|[body ->]]; [exact Hd|].
    rewrite map_app. simpl. repeat split.
    + apply NoDup_app. split; [done|]. split; [|apply NoDup_singleton].
      intros id Hid ->%list_elem_of_singleton. done.
    + intros w job Hw [Hin|Hin%list_elem_of_singleton]%elem_of_app.
      * by apply (Hrq w job).
      * by apply (Hu2 w job).
    + done.
    + intros job [[Hin|Hin%list_elem_of_singleton]%elem_of_app|Hrun].
      * apply Hst. by left.
      * by subst job.
      * apply Hst. by right.
  - done.
  - destruct (Running s !! w) eqn:Hw; [done|].
    destruct (JobQueue s) as [|j rest] eqn:Hjq; [done|].
    case_decide; [|done]. simpl in Hq, Hrq.
    apply NoDup_cons in Hq as [Hj Hq].
    unfold distinctIDs, pendingJob in *. simpl. repeat split.
    + done.
    + intros w' job'. rewrite lookup_insert. case_decide.
      * by intros [= <-].
      * intros Hw'. specialize (Hrq w' job' Hw').
        by apply not_elem_of_cons in Hrq as [_ ?].
    + intros w1 w2 j1 j2. rewrite !lookup_insert.
      repeat case_decide; try congruence.
      * intros [= <-] Hw2 E. specialize (Hrq w2 j2 Hw2).
        apply not_elem_of_cons in Hrq as [Hne _]. congruence.
      * intros Hw1 [= <-] E. specialize (Hrq w1 j1 Hw1).
        apply not_elem_of_cons in Hrq as [Hne _]. congruence.
      * apply Hrr.
    + intros job' [Hin|[w' Hw']].
      * apply Hst. left. rewrite Hjq. by apply list_elem_of_further.
      * rewrite lookup_insert in Hw'. case_decide.
        -- injection Hw' as <-. apply Hst. left. rewrite Hjq.
           apply list_elem_of_here.
        -- apply Hst. right. eauto.
  - destruct (Running s !! w) as [j|] eqn:Hw; [|done].
    unfold distinctIDs, pendingJob in *. simpl. repeat split.
    + done.
    + intros w' job' [_ Hw']%lookup_delete_Some. by apply (Hrq w').
    + intros w1 w2 j1 j2 [_ H1]%lookup_delete_Some [_ H2]%lookup_delete_Some.
      by apply Hrr.
    + intros job' Hpending.
      assert (JobID j ≠ JobID job') as Hne.
      { destruct Hpending as [Hin|[w' [Hww Hw']%lookup_delete_Some]].
        - intros E. apply (Hrq w j Hw). rewrite E.
          apply list_elem_of_fmap. eauto.
        - intros E. by apply Hww, (Hrr w w' j job'). }
      rewrite lookup_insert_ne by done. apply Hst.
      destruct Hpending as [?|[w' [_ Hw']%lookup_delete_Some]]; eauto.
Qed.

Lemma step_keeps_job (s : Server) (e : Event) (job : ConversionJob) :
  distinctIDs s →
  pendingJob job s ∨ ResultStore s !! JobID job = Some (processJob job) →
  pendingJob job (step s e) ∨
  ResultStore (step s e) !! JobID job = Some (processJob job).
Proof.
  intros (Hq & Hrq & Hrr & Hst) Hjob.
  destruct e as [r uuid| |w|w]; simpl.
  - destruct (handleConvert_state s r uuid) as (Est & Erun & Equeue).
    unfold pendingJob. rewrite Est, Erun.
    destruct Hjob as [[Hin|Hrun]|Hstored]; [|by left; right|by right].
    left. left. destruct Equeue as [->|[body ->]]; [done|].
    apply elem_of_app. by left.
  - done.
  - destruct (Running s !! w) eqn:Hw; [done|].
    destruct (JobQueue s) as [|j rest] eqn:Hjq; [done|].
    case_decide; [|done].
    unfold pendingJob in *. simpl.
    destruct Hjob as [[Hin|[w' Hw']]|Hstored]; [| |by right].
    + rewrite Hjq in Hin. apply elem_of_cons in Hin as [->|Hin].
      * left. right. exists w. apply lookup_insert_eq.
      * by left; left.
    + left. right. exists w'. rewrite lookup_insert_ne; [done|congruence].
  - destruct (Running s !! w) as [j|] eqn:Hw; [|done].
    unfold pendingJob in *. simpl.
    destruct Hjob as [[Hin|[w' Hw']]|Hstored].
    + by left; left.
    + destruct (decide (w = w')) as [->|Hne].
      * right. assert (j = job) as -> by congruence. apply lookup_insert_eq.
      * left. right. exists w'. by rewrite lookup_delete_ne.
    + right. rewrite lookup_insert_ne; [done|].
      intros E. assert (ResultStore s !! JobID j = None) as Hnone
        by (apply Hst; right; eauto).
      congruence.
Qed.

Lemma step_keeps_result (s : Server) (e : Event) (id : string)
    (res : ConversionResult) :
  distinctIDs s →
  ResultStore s !! id = Some res →
  ResultStore (step s e) !! id = Some res.
Proof.
  intros Hd Hres. pose proof Hd as (_ & _ & _ & Hst). destruct e as [r uuid| |w|w]; simpl.
  - by destruct (handleConvert_state s r uuid) as (-> & _ & _).
  - done.
  - repeat (case_match || case_decide); done.
  - destruct (Running s !! w) as [j|] eqn:Hw; [|done]. simpl.
    rewrite lookup_insert_ne; [done|].
    intros E. assert (ResultStore s !! JobID j = None) as Hnone
      by (apply Hst; right; eauto).
    congruence.
Qed.

(** X18: No job is lost and none is answered with the result of another:
    while identifiers are drawn fresh, a job that is in the queue or
    with a worker is later still there, or the store holds under its
    identifier the result of converting its own document. *)
Theorem no_job_lost (s : Server) (events : list Event) (job : ConversionJob) :
  distinctIDs s →
  freshRun s events →
  pendingJob job s →
  pendingJob job (run s events) ∨
  ResultStore (run s events) !! JobID job = Some (processJob job).
Proof.
  intros Hd Hfresh Hjob.
  assert (pendingJob job s ∨
          ResultStore s !! JobID job = Some (processJob job)) as Hinv
    by by left.
  clear Hjob. revert s Hd Hfresh Hinv.
  induction events as [|e events IH]; intros s Hd Hfresh Hinv; [done|].
  destruct Hfresh as [Hf Hrest]. simpl. apply IH; [|done|].
  - apply step_distinctIDs; [done|]. by destruct e.
  - by apply step_keeps_job.
Qed.

(** X19: A stored result is final: while identifiers are drawn fresh, nothing
    that happens later replaces or removes it. *)
Theorem results_final (s : Server) (events : list Event) (id : string)
    (res : ConversionResult) :
  distinctIDs s →
  freshRun s events →
  ResultStore s !! id = Some res →
  ResultStore (run s events) !! id = Some res.
Proof.
  revert s. induction events as [|e events IH]; intros s Hd Hfresh Hres;
    [done|].
  destruct Hfresh as [Hf Hrest]. simpl. apply IH; [|done|].
  - apply step_distinctIDs; [done|]. by destruct e.
  - by apply step_keeps_result.
Qed.

(** X20: From request to answer: on a server with an empty queue, a request
    that is accepted, received by an idle worker and stored by it is
    then answered with the outcome of converting its own body: 200 and
    the document, or 500 and the failure. *)
Theorem submit_process_poll (s : Server) (r : Request) (body uuid : string)
    (w : nat) :
  JobQueue s = [] →
  Running s !! w = None →
  1 ≤ w ≤ NumWorkers →
  Method r = "POST" →
  Body r = Some body →
  body ≠ "" →
  uuid ≠ "" →
  handleGetResult (pollRequest uuid)
    (run s [Convert r uuid; Receive w; Store w])
  = resultResponse (processJob {| JobID := uuid; GhaYAML := body |}).
Proof.
  intros Hq Hw Hrange Hm Hb Hne Hid.
  unfold run. cbn [fold_left step].
  rewrite (handleConvert_room r body uuid s)
    by (done || rewrite Hq; simpl; unfold MaxQueue; lia).
  cbn [snd JobQueue Running ResultStore]. rewrite Hw, Hq. cbn [app].
  rewrite decide_True by done. cbn [JobQueue Running ResultStore].
  rewrite lookup_insert_eq.
  unfold handleGetResult, pollRequest. cbn [Method Path ResultStore JobID].
  rewrite decide_False by (by intros ?). rewrite TrimPrefix_app.
  rewrite decide_False by done. by rewrite lookup_insert_eq.
Qed.

End PoolInvariants.

Lemma idleServer_bounds : queueBounded idleServer ∧ workersInRange idleServer.
Proof.
  split.
  - unfold queueBounded, MaxQueue. simpl. lia.
  - intros w [job Hw]. simpl in Hw. by rewrite lookup_empty in Hw.
Defined.

Lemma pool_bounds_witness :
  length (JobQueue (@run asciiExternal idleServer
                      [Convert postRequest "a"; Receive 1])) ≤ MaxQueue ∧
  size (Running (@run asciiExternal idleServer
                   [Convert postRequest "a"; Receive 1])) ≤ NumWorkers.
Proof.
  apply (@pool_bounds asciiExternal idleServer).
  - exact (proj1 idleServer_bounds).
  - exact (proj2 idleServer_bounds).
Defined.

Lemma busyServer_distinct : distinctIDs busyServer.
Proof.
  unfold distinctIDs, pendingJob. simpl. repeat split.
  - apply NoDup_singleton.
  - intros w job Hw. by rewrite lookup_empty in Hw.
  - intros w w' job job' Hw. by rewrite lookup_empty in Hw.
Defined.

Lemma no_job_lost_witness :
  pendingJob queuedJob (@run asciiExternal busyServer [Receive 1; Store 1]) ∨
  ResultStore (@run asciiExternal busyServer [Receive 1; Store 1])
    !! JobID queuedJob = Some (@processJob asciiExternal queuedJob).
Proof.
  apply (@no_job_lost asciiExternal busyServer [Receive 1; Store 1] queuedJob).
  - exact busyServer_distinct.
  - simpl. tauto.
  - left. apply list_elem_of_here.
Defined.

Lemma storedServer_distinct : distinctIDs storedServer.
Proof.
  unfold distinctIDs, pendingJob. simpl. repeat split.
  - apply NoDup_nil_2.
  - intros w job Hw. by rewrite lookup_empty in Hw.
  - intros w w' job job' Hw. by rewrite lookup_empty in Hw.
  - intros job [Hin%elem_of_nil|[w Hw]]; [done|].
    by rewrite lookup_empty in Hw.
Defined.

Lemma results_final_witness :
  ResultStore (@run asciiExternal storedServer
                 [Convert postRequest "new"; Receive 1; Store 1])
    !! "done" = Some storedResult.
Proof.
  apply (@results_final asciiExternal storedServer
           [Convert postRequest "new"; Receive 1; Store 1] "done" storedResult).
  - exact storedServer_distinct.
  - cbn [freshRun]. split; [|tauto].
    split; [apply not_elem_of_nil|]. split.
    + intros w job Hw. simpl in Hw. by rewrite lookup_empty in Hw.
    + simpl. by apply lookup_singleton_ne.
  - simpl. apply lookup_singleton_eq.
Defined.

Lemma submit_process_poll_witness :
  handleGetResult (pollRequest "fresh")
    (@run asciiExternal idleServer
       [Convert postRequest "fresh"; Receive 1; Store 1])
  = resultResponse
      (@processJob asciiExternal {| JobID := "fresh"; GhaYAML := "jobs: {}" |}).
Proof.
  apply (@submit_process_poll asciiExternal idleServer postRequest "jobs: {}"
           "fresh" 1).
  - reflexivity.
  - reflexivity.
  - unfold NumWorkers. lia.
  - reflexivity.
  - reflexivity.
  - discriminate.
  - discriminate.
Defined.

(** ** The synchronous server *)

Section SyncServer.
Context `{SyncPool.Codec}.

Lemma handleConversion_room (r : Request) (body : string) (resultChan : nat)
    (queue : list Sync.ConversionJob) :
  Method r = "POST" → Body r = Some body → body ≠ "" →
  length queue < Sync.MaxQueue →
  Sync.handleConversion r resultChan queue
  = (Sync.AwaitResult resultChan,
     queue ++ [{| Sync.Payload := body; Sync.ResultChan := resultChan |}]).
Proof.
  intros Hm Hb Hne Hlen. unfold Sync.handleConversion.
  rewrite decide_False by (by rewrite Hm; intros ?).
  rewrite Hb. rewrite decide_False by (by destruct body).
  by rewrite decide_True.
Qed.

(** X23: The synchronous handler touches the queue only when it goes on to
    wait for the result: it answers 405 to a wrong method and 400 to an
    unreadable or empty body with the queue as it was, and with room in
    the queue it puts the job, with the channel of the request, at the
    end. *)
Theorem sync_handler_outcomes (r : Request) (resultChan : nat)
    (queue : list Sync.ConversionJob) :
  (∀ resp queue',
     Sync.handleConversion r resultChan queue = (Sync.Respond resp, queue') →
     queue' = queue) ∧
  (Method r ≠ "POST" →
     ∃ msg, Sync.handleConversion r resultChan queue
            = (Sync.Respond (MethodNotAllowed msg), queue)) ∧
  (Method r = "POST" → Body r = None ∨ Body r = Some "" →
     ∃ msg, Sync.handleConversion r resultChan queue
            = (Sync.Respond (BadRequest msg), queue)) ∧
  (∀ body, Method r = "POST" → Body r = Some body → body ≠ "" →
     length queue < Sync.MaxQueue →
     Sync.handleConversion r resultChan queue
     = (Sync.AwaitResult resultChan,
        queue ++ [{| Sync.Payload := body; Sync.ResultChan := resultChan |}])).
Proof.
  unfold Sync.handleConversion. repeat split.
  - intros resp queue'.
    repeat (case_decide || case_match); simpl; congruence.
  - intros Hm. rewrite decide_True by done. eauto.
  - intros Hm Hb. rewrite decide_False by (by intros ?).
    destruct Hb as [->| ->]; [eauto|].
    rewrite decide_True by done. eauto.
  - intros body Hm Hb Hne Hlen.
    by rewrite <- (handleConversion_room r body resultChan queue).
Qed.

(** X24: From request to answer in the synchronous server: with an empty
    queue, a request that is queued, received by an idle worker and
    handed back is answered with the outcome of converting its own
    body: 200 and the JSON text, or 500 and the failure. *)
Theorem sync_request_answer (p : SyncPool.Pool) (r : Request)
    (body : string) (resultChan w : nat) :
  SyncPool.Queue p = [] →
  SyncPool.Busy p !! w = None →
  1 ≤ w ≤ Sync.MaxWorkers →
  Method r = "POST" →
  Body r = Some body →
  body ≠ "" →
  SyncPool.Answers
    (SyncPool.run p [SyncPool.Submit r resultChan; SyncPool.Receive w;
                     SyncPool.Deliver w])
    !! resultChan
  = Some (SyncPool.respond (SyncPool.convertWorkflow body)).
Proof.
  intros Hq Hw Hrange Hm Hb Hne.
  unfold SyncPool.run. cbn [fold_left SyncPool.step].
  rewrite (handleConversion_room r body)
    by (done || rewrite Hq; unfold Sync.MaxQueue; simpl; lia).
  cbn [SyncPool.Queue SyncPool.Busy SyncPool.Answers]. rewrite Hw, Hq.
  cbn [app]. rewrite decide_True by done.
  cbn [SyncPool.Queue SyncPool.Busy SyncPool.Answers].
  rewrite lookup_insert_eq. cbn [SyncPool.Answers]. apply lookup_insert_eq.
Qed.

End SyncServer.

Lemma sync_request_answer_witness :
  SyncPool.Answers
    (@SyncPool.run sampleCodec idlePool
       [SyncPool.Submit postRequest 7; SyncPool.Receive 1; SyncPool.Deliver 1])
    !! 7
  = Some (SyncPool.respond (@SyncPool.convertWorkflow sampleCodec "jobs: {}")).
Proof.
  apply (@sync_request_answer sampleCodec idlePool postRequest "jobs: {}" 7 1).
  - reflexivity.
  - reflexivity.
  - unfold Sync.MaxWorkers. lia.
  - reflexivity.
  - reflexivity.
  - discriminate.
Defined.

(** ** The ConfigMap reader *)

(** X25: [GetConfigMapValue] returns a value exactly when the cluster has the
    ConfigMap and the ConfigMap has the key; otherwise it returns the
    message of [GetConfigMap] for a failed read, or the message that
    names the missing key. *)
Theorem GetConfigMapValue_cases
    (clientset : string → string → string + configmap.ConfigMap)
    (namespace configMapName key : string) :
  (∀ value,
     configmap.GetConfigMapValue clientset namespace configMapName key
       = inr value ↔
     ∃ configMap, clientset namespace configMapName = inr configMap ∧
                  configmap.ConfigMap_Data configMap !! key = Some value) ∧
  (∀ err, clientset namespace configMapName = inl err →
     configmap.GetConfigMapValue clientset namespace configMapName key
       = inl ("failed to get ConfigMap " +:+ configMapName +:+
              " in namespace " +:+ namespace +:+ ": " +:+ err)) ∧
  (∀ configMap, clientset namespace configMapName = inr configMap →
     configmap.ConfigMap_Data configMap !! key = None →
     configmap.GetConfigMapValue clientset namespace configMapName key
       = inl ("key " +:+ key +:+ " not found in ConfigMap " +:+ configMapName)).
Proof.
  unfold configmap.GetConfigMapValue, configmap.GetConfigMap.
  destruct (clientset namespace configMapName) as [err|configMap] eqn:Hget.
  - repeat split; try done.
    + by intros (? & ? & _).
    + by intros ? [= ->].
  - destruct (configmap.ConfigMap_Data configMap !! key) as [value|] eqn:Hkey.
    + repeat split; try done.
      * intros [= <-]. eauto.
      * intros (? & [= <-] & ?). congruence.
      * intros ? [= <-] ?. congruence.
    + repeat split; try done.
      intros (? & [= <-] & ?). congruence.
Qed.

Lemma GetConfigMapValue_cases_witness :
  configmap.GetConfigMapValue sampleCluster "argo"
    "workflow-artifact-repository" "artifact-repository" = inr "s3".
Proof.
  apply (proj1 (GetConfigMapValue_cases sampleCluster "argo"
                  "workflow-artifact-repository" "artifact-repository")).
  exists sampleConfigMap. split; [reflexivity|]. apply lookup_singleton_eq.
Defined.

(** ** The names of steps *)

Section StepNames.
Context `{External}.

(** X12: The name [step-<index>] is given to a step whose name is not empty
    and has, once in lower case, no byte of [a-z0-9]; a step without a
    name is called [unnamed]; every other step gets its sanitized
    name, whatever its index. *)
Theorem step_name_fallback (i : nat) (ghaStep : Step) :
  let name := Step_Name ghaStep in
  (name ≠ "" → existsb isAlnum (ToLower (bytes name)) = false →
     stepNameAt i ghaStep = "step-" +:+ pretty i) ∧
  (name = "" → stepNameAt i ghaStep = "unnamed") ∧
  (existsb isAlnum (ToLower (bytes name)) = true →
     stepNameAt i ghaStep = sanitizeName name).
Proof.
  cbn zeta. unfold stepNameAt.
  pose proof (sanitizeBytes_nil (bytes (Step_Name ghaStep))) as Hnil.
  rewrite bytes_nil in Hnil. repeat split.
  - intros Hne Hal. rewrite decide_True; [done|].
    unfold sanitizeName. destruct Hnil as [_ ->]; done.
  - by intros ->.
  - intros Hal. rewrite decide_False; [done|].
    unfold sanitizeName. intros E%bytes_nil. rewrite bytes_str in E.
    destruct Hnil as [Hnil _]. destruct (Hnil E). congruence.
Qed.

End StepNames.

(** ** The pool: who writes what *)

Section PoolWrites.
Context `{External}.

(** X21: Requests never write to the store: as long as no worker stores a
    result, the store is what it was, and so is every answer to a
    poll. *)
Theorem store_written_by_workers (s : Server) (events : list Event) :
  (∀ w, Store w ∉ events) →
  ResultStore (run s events) = ResultStore s ∧
  ∀ r, handleGetResult r (run s events) = handleGetResult r s.
Proof.
  intros Hno.
  assert (ResultStore (run s events) = ResultStore s) as E.
  { revert s. induction events as [|e events IH]; intros s; [done|].
    simpl. rewrite IH.
    - destruct e as [r uuid| |w|w]; simpl.
      + by destruct (handleConvert_state s r uuid) as (-> & _ & _).
      + done.
      + repeat (case_match || case_decide); done.
      + destruct (Hno w). apply list_elem_of_here.
    - intros w Hin. apply (Hno w). by apply list_elem_of_further. }
  split; [done|]. intros r. unfold handleGetResult. by rewrite E.
Qed.

(** X22: The queue is first in, first out: whatever happens, it is the old
    queue followed by the jobs accepted since, in the order of their
    requests, less some jobs taken from the front. *)
Theorem queue_is_fifo (s : Server) (events : list Event) :
  ∃ k, JobQueue (run s events)
       = drop k (JobQueue s ++ acceptedJobs s events).
Proof.
  revert s. induction events as [|e events IH]; intros s.
  - exists 0. simpl. by rewrite app_nil_r.
  - cbn [run fold_left acceptedJobs]. fold (run (step s e) events).
    destruct (IH (step s e)) as (k & ->).
    destruct e as [r uuid| |w|w]; cbn [step].
    + exists k. f_equal. rewrite app_assoc. f_equal.
      unfold handleConvert.
      repeat (case_decide || case_match); simplify_eq/=;
        by rewrite ?app_nil_r.
    + by exists k.
    + destruct (Running s !! w); [by exists k|].
      destruct (JobQueue s) as [|job rest] eqn:Hjq;
        [exists k; by rewrite Hjq|].
      case_decide; [|exists k; by rewrite Hjq].
      by exists (S k).
    + exists k. by destruct (Running s !! w).
Qed.

End PoolWrites.

Lemma step_name_fallback_witness :
  @stepNameAt asciiExternal 3
    {| Step_Name := "!!!"; Step_Run := "make"; Step_Uses := "";
       Step_With := None |} = "step-3".
Proof.
  apply (proj1 (@step_name_fallback asciiExternal 3
                  {| Step_Name := "!!!"; Step_Run := "make"; Step_Uses := "";
                     Step_With := None |})).
  - discriminate.
  - reflexivity.
Defined.

Lemma store_written_by_workers_witness :
  ResultStore (@run asciiExternal storedServer
                 [Convert postRequest "new"; Receive 1])
    = ResultStore storedServer.
Proof.
  apply (@store_written_by_workers asciiExternal storedServer
           [Convert postRequest "new"; Receive 1]).
  intros w Hin.
  repeat (apply elem_of_cons in Hin as [Hin|Hin]; [discriminate Hin|]).
  by apply elem_of_nil in Hin.
Defined.

(** ** The placeholder script under the shell *)










Section Placeholder.
Context `{External}.



End Placeholder.


